(** * QueryFlow: a shallow embedding of the request-caching core

    The development follows the TypeScript sources of the repository:
    the lifecycle state machine ([core/state-machine.ts]), the cache
    manager ([plugins/core/cache-manager.ts]), the request handler
    ([plugins/core/request-handler.ts]), the cache key generator
    ([core/url-parser.ts]) and the query and mutation controllers
    ([query.ts], [mutation.ts]).

    Conventions of the embedding:
    - JavaScript numbers that hold timestamps, durations and counters are
      integers ([Z]); [Date.now()] is read from an explicit clock.
    - A JavaScript [Map] used as a dictionary is a [gmap]; an object whose
      enumeration order matters ([Object.entries]) is an association list.
    - A function that may throw returns a [Completion]; stateful code is
      written in a small state-and-exception monad. *)

From Stdlib Require Import ZArith Ascii String List Lia Bool.
From Stdlib Require Import DecimalString OrdersEx.
From stdpp Require Import base option list gmap strings sorting.

Local Open Scope string_scope.
Local Open Scope Z_scope.
Local Open Scope list_scope.

(** ** JavaScript values, errors and completions *)

Module Js.

(** Values of type [unknown]. *)
#[local] Unset Elimination Schemes.
Inductive value : Type :=
| VUndefined
| VNull
| VBool (b : bool)
| VNum (n : Z)
| VStr (s : string)
| VArr (items : list value)
| VObj (fields : list (string * value)).
#[local] Set Elimination Schemes.

(** An [Error] object: its [name], the [code] of a [QueryFlowError]
    subclass when there is one, and its [message]. *)
Record JsError : Type := mkError {
  err_name : string;
  err_code : option string;
  err_message : string;
}.

(** [new Error(message)]. *)
Definition Error_ (message : string) : JsError :=
  mkError "Error" None message.

(** The outcome of running a piece of code: it returns or it throws.
    For an [async] function, [Return] is a fulfilled promise and
    [Throw] a rejected one. *)
Inductive Completion (A : Type) : Type :=
| Return (a : A)
| Throw (e : JsError).
Arguments Return {A} a.
Arguments Throw {A} e.

(** [a ?? b] on values. *)
Definition nullish (v : value) : bool :=
  match v with
  | VUndefined | VNull => true
  | _ => false
  end.

Definition coalesce (a b : value) : value :=
  if nullish a then b else a.

(** [String(n)] for an integer. *)
Definition string_of_Z (n : Z) : string :=
  NilEmpty.string_of_int (Z.to_int n).

(** The double-quote character, as a one-character string. *)
Definition dquote : string := String (ascii_of_nat 34) EmptyString.

(** *** A state-and-exception monad *)

Definition M (S A : Type) : Type := S -> Completion A * S.

Definition ret {S A} (a : A) : M S A := fun s => (Return a, s).

Definition throw {S A} (e : JsError) : M S A := fun s => (Throw e, s).

Definition bind {S A B} (m : M S A) (k : A -> M S B) : M S B :=
  fun s =>
    match m s with
    | (Return a, s') => k a s'
    | (Throw e, s') => (Throw e, s')
    end.

Definition gets {S A} (f : S -> A) : M S A := fun s => (Return (f s), s).

Definition modify {S} (f : S -> S) : M S unit := fun s => (Return tt, f s).

(** [try { m } catch (e) { h e }]. *)
Definition try_catch {S A} (m : M S A) (h : JsError -> M S A) : M S A :=
  fun s =>
    match m s with
    | (Return a, s') => (Return a, s')
    | (Throw e, s') => h e s'
    end.

(** [try { m } finally { f }]: [f] always runs; when it throws, its
    error replaces the completion of [m]. *)
Definition try_finally {S A} (m : M S A) (f : M S unit) : M S A :=
  fun s =>
    match m s with
    | (r, s') =>
        match f s' with
        | (Return _, s'') => (r, s'')
        | (Throw e, s'') => (Throw e, s'')
        end
    end.

(** Calling an optional callback, [cb?.(x)]. *)
Definition call_opt {S X} (cb : option (X -> option JsError)) (x : X) : M S unit :=
  match cb with
  | None => ret tt
  | Some f =>
      match f x with
      | None => ret tt
      | Some e => throw e
      end
  end.

End Js.

Import Js.

#[global] Instance M_ret {S} : MRet (M S) := fun A => @ret S A.
#[global] Instance M_bind {S} : MBind (M S) := fun A B k m => @bind S A B m k.

(** ** The error classes ([errors.ts]) *)

Module Errors.

Definition QueryFlowError (code message : string) : JsError :=
  mkError "QueryFlowError" (Some code) message.

Definition NetworkError (message : string) : JsError :=
  mkError "NetworkError" (Some "NETWORK_ERROR") message.

Definition TimeoutError (timeout : Z) : JsError :=
  mkError "TimeoutError" (Some "TIMEOUT_ERROR")
    ("Request timed out after " +:+ string_of_Z timeout +:+ "ms").

Definition ValidationError (message : string) : JsError :=
  mkError "ValidationError" (Some "VALIDATION_ERROR") message.

Definition CacheError (message : string) : JsError :=
  mkError "CacheError" (Some "CACHE_ERROR") message.

End Errors.

(** ** The lifecycle state machine ([core/state-machine.ts]) *)

Module StateMachine.

Inductive State : Type := idle | loading | success | error | stale.

#[global] Instance State_eq_dec : EqDecision State.
Proof. solve_decision. Defined.

Record StateSnapshot : Type := mkSnapshot {
  snap_state : State;
  snap_data : value;
  snap_error : option JsError;
  snap_timestamp : Z;
}.

(** The private fields of the class. Listeners are kept by identity, in
    registration order (a [Set]). *)
Record t : Type := mk {
  state : State;
  data : value;
  error_ : option JsError;
  history : list StateSnapshot;
  listeners : list nat;
}.

(** A fresh instance. *)
Definition new : t := mk idle VUndefined None [] [].

Definition getState (sm : t) : State := state sm.
Definition getData (sm : t) : value := data sm.
Definition getError (sm : t) : option JsError := error_ sm.
Definition getHistory (sm : t) : list StateSnapshot := history sm.

(** [listeners.add(listener)]: a [Set] keeps one copy. *)
Definition subscribe (listener : nat) (sm : t) : t :=
  mk (state sm) (data sm) (error_ sm) (history sm)
     (if decide (listener ∈ listeners sm) then listeners sm
      else listeners sm ++ [listener]).

(** The disposer returned by [subscribe]. *)
Definition unsubscribe (listener : nat) (sm : t) : t :=
  mk (state sm) (data sm) (error_ sm) (history sm)
     (filter (fun l => l ≠ listener) (listeners sm)).

(** The table of [isValidTransition]. *)
Definition valid (from : State) : list State :=
  match from with
  | idle => [loading]
  | loading => [success; error]
  | success => [loading; stale]
  | error => [loading; idle]
  | stale => [loading]
  end.

Definition isValidTransition (from to : State) : bool :=
  bool_decide (to ∈ valid from).

Definition State_to_string (s : State) : string :=
  match s with
  | idle => "idle"
  | loading => "loading"
  | success => "success"
  | error => "error"
  | stale => "stale"
  end.

(** The error thrown on a transition that is not in the table. *)
Definition InvalidTransition (from to : State) : JsError :=
  Error_ ("Invalid state transition: " +:+ State_to_string from
          +:+ " -> " +:+ State_to_string to).

(** [notify(snapshot)]: the deliveries made, one per listener, in
    registration order. Listeners observe: they are taken to return
    normally. *)
Definition notify (sm : t) (snapshot : StateSnapshot) : list (nat * StateSnapshot) :=
  map (fun l => (l, snapshot)) (listeners sm).

(** [transition(newState, data?, error?)] at clock reading [now]. An
    omitted [data] is [VUndefined], an omitted [error] is [None]. The
    result carries the snapshot and the deliveries to the listeners. *)
Definition transition (now : Z) (newState : State) (data' : value)
    (err : option JsError) (sm : t)
  : Completion (StateSnapshot * list (nat * StateSnapshot)) * t :=
  if negb (isValidTransition (state sm) newState) then
    (Throw (InvalidTransition (state sm) newState), sm)
  else
    let state1 := newState in
    let data1 := coalesce data' (data sm) in
    let error1 := match err with Some e => Some e | None => None end in
    let snapshot := mkSnapshot state1 data1 error1 now in
    let sm1 := mk state1 data1 error1 (history sm ++ [snapshot]) (listeners sm) in
    (Return (snapshot, notify sm1 snapshot), sm1).

Definition reset (sm : t) : t :=
  mk idle VUndefined None [] (listeners sm).

(** The calls a client can make on an instance. *)
Inductive Call : Type :=
| CTransition (now : Z) (newState : State) (data' : value) (err : option JsError)
| CReset
| CSubscribe (listener : nat)
| CUnsubscribe (listener : nat).

Definition call (c : Call) (sm : t) : t :=
  match c with
  | CTransition now to d e => snd (transition now to d e sm)
  | CReset => reset sm
  | CSubscribe l => subscribe l sm
  | CUnsubscribe l => unsubscribe l sm
  end.

(** The instances reachable from a fresh one. *)
Inductive Reachable : t -> Prop :=
| Reachable_new : Reachable new
| Reachable_call c sm : Reachable sm -> Reachable (call c sm).

(** The phases [ps] are the successive targets of valid steps that
    start in [from] and end in [to]. *)
Fixpoint path (from : State) (ps : list State) (to : State) : Prop :=
  match ps with
  | [] => from = to
  | p :: ps' => isValidTransition from p = true /\ path p ps' to
  end.


End StateMachine.

(** ** Option records ([types.ts]) *)

Module Types.

(** A parameter value: [string | number | boolean]. *)
Inductive ParamValue : Type :=
| PStr (s : string)
| PNum (n : Z)
| PBool (b : bool).

(** The template literal [`${v}`]. *)
Definition ParamValue_to_string (v : ParamValue) : string :=
  match v with
  | PStr s => s
  | PNum n => string_of_Z n
  | PBool true => "true"
  | PBool false => "false"
  end.

(** A [Record<string, ...>]: its own properties in enumeration order. *)
Abbreviation Params := (list (string * ParamValue)).

(** Property access [params.name]. *)
Fixpoint prop {V} (name : string) (o : list (string * V)) : option V :=
  match o with
  | [] => None
  | (k, v) :: o' => if String.eqb k name then Some v else prop name o'
  end.

(** The object spread [{ ...a, ...b }]: the properties of [a] in place,
    with the value [b] gives them when it has them, then the properties
    of [b] that [a] lacks. *)
Definition spread {V} (a b : list (string * V)) : list (string * V) :=
  map (fun '(k, v) => (k, default v (prop k b))) a
  ++ filter (fun '(k, _) => prop k a = None) b.

Inductive Placeholder : Type :=
| PlaceholderValue (v : value)
| PlaceholderFn (f : Completion value).

Record QueryOptions : Type := mkQueryOptions {
  params : option Params;
  searchParams : option Params;
  staleTime : option Z;
  cacheTime : option Z;
  retry : option (Z + bool);
  retryDelay : option Z;
  enabled : option bool;
  select : option (value -> Completion value);
  placeholderData : option Placeholder;
  onSuccess : option (value -> option JsError);
  onError : option (JsError -> option JsError);
  onSettled : option (value * option JsError -> option JsError);
}.

(** The options object [{}]. *)
Definition noOptions : QueryOptions :=
  mkQueryOptions None None None None None None None None None None None None.

Record ClientConfig : Type := mkClientConfig {
  baseUrl : option string;
  timeout : option Z;
}.

(** What the network gives back for one call of the global [fetch]. *)
Record Response : Type := mkResponse {
  ok : bool;
  status : Z;
  statusText : string;
  json : Completion value;
}.

End Types.

(** ** String operations *)

Module JsString.

(** [parts.join(sep)]. *)
Fixpoint join (sep : string) (parts : list string) : string :=
  match parts with
  | [] => ""
  | [p] => p
  | p :: rest => p +:+ sep +:+ join sep rest
  end.

(** [s.startsWith(p)]. *)
Definition startsWith (s p : string) : bool := String.prefix p s.

(** [s.includes(p)]. *)
Fixpoint includes (s p : string) : bool :=
  match s with
  | EmptyString => String.prefix p ""
  | String _ s' => String.prefix p s || includes s' p
  end.

Definition slash : ascii := "/"%char.
Definition colon : ascii := ":"%char.

(** Does a match of [/:[^/]+] start right after a slash, at [rest]? *)
Definition startsParam (rest : string) : bool :=
  match rest with
  | String c (String d _) => Ascii.eqb c colon && negb (Ascii.eqb d slash)
  | _ => false
  end.

(** [s.replace(/\/:[^/]+/g, '')]. While [inside] a match, characters
    other than the slash are dropped; a slash ends the match and may
    start the next one. *)
Fixpoint stripParamsFrom (inside : bool) (s : string) : string :=
  match s with
  | EmptyString => EmptyString
  | String c rest =>
      if Ascii.eqb c slash then
        if startsParam rest then stripParamsFrom true rest
        else String c (stripParamsFrom false rest)
      else if inside then stripParamsFrom true rest
      else String c (stripParamsFrom false rest)
  end.

Definition stripParams (s : string) : string := stripParamsFrom false s.

Definition isIdentStart (c : ascii) : bool :=
  let n := nat_of_ascii c in
  ((65 <=? n) && (n <=? 90) || (97 <=? n) && (n <=? 122) || (n =? 95))%nat.

Definition isIdentChar (c : ascii) : bool :=
  let n := nat_of_ascii c in
  (isIdentStart c || (48 <=? n) && (n <=? 57))%nat.

Definition startsIdent (rest : string) : bool :=
  match rest with
  | String d _ => isIdentStart d
  | EmptyString => false
  end.

(** The successive matches of the global pattern of [extractParams] (a
    colon, then a letter or underscore, then letters, digits and
    underscores), first capture group. [cur] is the identifier being
    read, if any. *)
Fixpoint identMatches (cur : option string) (s : string) : list string :=
  match s with
  | EmptyString =>
      match cur with Some name => [name] | None => [] end
  | String c rest =>
      match cur with
      | Some name =>
          if isIdentChar c then identMatches (Some (name +:+ String c "")) rest
          else name ::
               identMatches
                 (if Ascii.eqb c colon && startsIdent rest then Some "" else None)
                 rest
      | None =>
          identMatches
            (if Ascii.eqb c colon && startsIdent rest then Some "" else None)
            rest
      end
  end.

(** What follows the prefix [p] in [s], when [s] starts with [p]. *)
Fixpoint afterPrefix (p s : string) : option string :=
  match p, s with
  | EmptyString, _ => Some s
  | String a p', String b s' => if Ascii.eqb a b then afterPrefix p' s' else None
  | String _ _, EmptyString => None
  end.

(** [s.match(new RegExp(lit + "([^/]|$)"))], first capture group, for a
    literal [lit] without special characters: the leftmost place where
    [lit] is followed by a character other than the slash, or by the end
    of the string. *)
Fixpoint matchFollowedBy (lit : string) (s : string) : option string :=
  let here :=
    match afterPrefix lit s with
    | Some EmptyString => Some ""
    | Some (String d _) => if Ascii.eqb d slash then None else Some (String d "")
    | None => None
    end in
  match here with
  | Some g => Some g
  | None =>
      match s with
      | EmptyString => None
      | String _ s' => matchFollowedBy lit s'
      end
  end.

(** *** [String.prototype.replace] with a string pattern *)

(** The first occurrence of [pat] in [s]: what is before and after it. *)
Fixpoint splitFirst (pat s : string) : option (string * string) :=
  match afterPrefix pat s with
  | Some rest => Some ("", rest)
  | None =>
      match s with
      | EmptyString => None
      | String c s' =>
          match splitFirst pat s' with
          | Some (b, a) => Some (String c b, a)
          | None => None
          end
      end
  end.

Definition dollar : ascii := "$"%char.

(** The expansion of the replacement text (there are no capture groups,
    so a dollar in front of a digit stands for itself): a doubled dollar
    is a dollar, dollar-ampersand the match, dollar-backquote what is
    before it, dollar-quote what is after it. *)
Fixpoint getSubstitution (matched before after repl : string) : string :=
  match repl with
  | EmptyString => EmptyString
  | String c tail =>
      if Ascii.eqb c dollar then
        match tail with
        | String d rest =>
            if Ascii.eqb d dollar then
              String dollar (getSubstitution matched before after rest)
            else if Ascii.eqb d "&"%char then
              matched +:+ getSubstitution matched before after rest
            else if Ascii.eqb d "`"%char then
              before +:+ getSubstitution matched before after rest
            else if Ascii.eqb d "'"%char then
              after +:+ getSubstitution matched before after rest
            else String c (getSubstitution matched before after tail)
        | EmptyString => String c EmptyString
        end
      else String c (getSubstitution matched before after tail)
  end.

(** [s.replace(pat, repl)] for a string [pat]: the first occurrence. *)
Definition replace (s pat repl : string) : string :=
  match splitFirst pat s with
  | Some (b, a) => b +:+ getSubstitution pat b a repl +:+ a
  | None => s
  end.

(** *** [encodeURIComponent] *)

(** A character of a string stands for a code unit below 256. *)
Definition isUnreserved (c : ascii) : bool :=
  let n := nat_of_ascii c in
  ((65 <=? n) && (n <=? 90) || (97 <=? n) && (n <=? 122)
   || (48 <=? n) && (n <=? 57)
   || (n =? 45) || (n =? 95) || (n =? 46) || (n =? 33) || (n =? 126)
   || (n =? 42) || (n =? 39) || (n =? 40) || (n =? 41))%nat.

Definition hexDigit (n : nat) : ascii :=
  ascii_of_nat (if (n <? 10)%nat then 48 + n else 55 + n).

Definition percent (n : nat) : string :=
  String "%"%char (String (hexDigit (n / 16)) (String (hexDigit (n mod 16)) "")).

(** The escape of one code unit: itself when unreserved, else the
    percent-encoded bytes of its UTF-8 form. *)
Definition encodeChar (c : ascii) : string :=
  let n := nat_of_ascii c in
  if isUnreserved c then String c ""
  else if (n <? 128)%nat then percent n
  else percent (192 + n / 64) +:+ percent (128 + n mod 64).

Fixpoint encodeURIComponent (s : string) : string :=
  match s with
  | EmptyString => EmptyString
  | String c s' => encodeChar c +:+ encodeURIComponent s'
  end.

(** [s.replace(/\/$/, '')]: one slash at the end goes. *)
Fixpoint trimTrailingSlash (s : string) : string :=
  match s with
  | EmptyString => EmptyString
  | String c EmptyString => if Ascii.eqb c slash then EmptyString else s
  | String c s' => String c (trimTrailingSlash s')
  end.

(** *** The patterns of [invalidate] *)

(** The characters that have a meaning of their own in a [RegExp]
    source, the star apart. *)
Definition isRegExpSpecial (c : ascii) : bool :=
  let n := nat_of_ascii c in
  ((n =? 92) || (n =? 94) || (n =? 36) || (n =? 46) || (n =? 124)
   || (n =? 63) || (n =? 43) || (n =? 40) || (n =? 41) || (n =? 91)
   || (n =? 93) || (n =? 123) || (n =? 125))%nat.

Fixpoint plainPattern (pattern : string) : bool :=
  match pattern with
  | EmptyString => true
  | String c rest => negb (isRegExpSpecial c) && plainPattern rest
  end.

(** [pattern.split('*')]. *)
Fixpoint splitStars (pattern : string) : list string :=
  match pattern with
  | EmptyString => [EmptyString]
  | String c rest =>
      if Ascii.eqb c "*"%char then EmptyString :: splitStars rest
      else
        match splitStars rest with
        | seg :: segs => String c seg :: segs
        | [] => [String c EmptyString]
        end
  end.

(** The dot of a [RegExp] matches all but the line terminators. *)
Definition isLineTerminator (c : ascii) : bool :=
  let n := nat_of_ascii c in ((n =? 10) || (n =? 13))%nat.

(** Does the sequence [seg0 .* seg1 .* ...] match at the start of [s]? *)
Fixpoint matchSegments (segs : list string) (s : string) : bool :=
  match segs with
  | [] => true
  | seg :: rest =>
      match afterPrefix seg s with
      | None => false
      | Some s' =>
          match rest with
          | [] => true
          | _ :: _ =>
              (fix dotStar (u : string) : bool :=
                 matchSegments rest u
                 || match u with
                    | EmptyString => false
                    | String c u' =>
                        if isLineTerminator c then false else dotStar u'
                    end) s'
          end
      end
  end.

(** [regex.test(s)] for the sequence [segs]: a match may start anywhere. *)
Fixpoint searchSegments (segs : list string) (s : string) : bool :=
  matchSegments segs s
  || match s with
     | EmptyString => false
     | String _ s' => searchSegments segs s'
     end.

(** [new RegExp(pattern.replace(/\*/g, '.*')).test(key)], for a pattern
    whose only special character is the star. *)
Definition globTest (pattern key : string) : bool :=
  searchSegments (splitStars pattern) key.

(** How many times the character [c] occurs in [s]. *)
Fixpoint countChar (c : ascii) (s : string) : nat :=
  match s with
  | EmptyString => 0
  | String d s' => (if Ascii.eqb d c then 1 else 0) + countChar c s'
  end.

End JsString.

(** ** The cache key generator ([core/url-parser.ts]) *)

(** [String.prototype.localeCompare] belongs to the host: the embedding
    takes it as an interface. *)
Class Collation : Type := localeCompare : string -> string -> Z.


(** One collation that meets the interface: the comparison of strings
    by their code units. It serves to run the definitions on examples. *)
Definition codeUnitCompare (a b : string) : Z :=
  match String.compare a b with
  | Lt => -1
  | Eq => 0
  | Gt => 1
  end.

#[local] Instance codeUnitCollation : Collation := codeUnitCompare.

Module UrlParser.
Import Types JsString.

Section Sort.
Context {A : Type} (compareFn : A -> A -> Z).

(** [Array.prototype.sort(compareFn)] is stable: an element moves in
    front of another one only when [compareFn] puts it strictly first. *)
Fixpoint sortInsert (x : A) (sorted : list A) : list A :=
  match sorted with
  | [] => [x]
  | y :: rest =>
      if compareFn x y <=? 0 then x :: sorted else y :: sortInsert x rest
  end.

Definition sort (l : list A) : list A := foldr sortInsert [] l.

(** The order that [compareFn] induces: [x] may stay in front of [y]. *)
Definition before (x y : A) : Prop := compareFn x y <= 0.

End Sort.

Section WithCollation.
Context `{Collation}.

(** [generateCacheKey(url, params)]. The [params] object is truthy, so
    the key always carries the separator. *)
Definition generateCacheKey (url : string) (params : Params) : string :=
  let sortedParams :=
    join ","
      (map (fun '(k, v) => k +:+ ":" +:+ ParamValue_to_string v)
         (sort (fun a b => localeCompare a.1 b.1) params)) in
  url +:+ "|" +:+ sortedParams.

End WithCollation.

Record ParsedURL : Type := mkParsedURL {
  parsed_url : string;
  parsed_params : list string;
}.

(** A [Set] filled with [add] from the elements of [l], one after the
    other: each element once, in order of first appearance. *)
Definition setOf (l : list string) : list string :=
  foldl (fun acc x => if decide (x ∈ acc) then acc else acc ++ [x]) [] l.

(** [parseURLTemplate(template)]. *)
Definition parseURLTemplate (template : string) : ParsedURL :=
  mkParsedURL template (setOf (identMatches None template)).

Definition buildURL (template : string) (params : Params) : string :=
  foldl (fun url '(key, v) => replace url (":" +:+ key) (ParamValue_to_string v))
    template params.

Definition buildSearchParams (searchParams : Params) : string :=
  let entries :=
    join "&"
      (map (fun '(k, v) =>
              encodeURIComponent k +:+ "=" +:+
              encodeURIComponent (ParamValue_to_string v))
         searchParams) in
  if String.eqb entries "" then "" else "?" +:+ entries.

Definition buildFullURL (baseUrl' : option string) (template : string)
    (params : Params) (searchParams : option Params) : string :=
  let url := buildURL template params in
  let queryString :=
    match searchParams with
    | Some sp => buildSearchParams sp
    | None => ""
    end in
  let fullPath := url +:+ queryString in
  match baseUrl' with
  | Some b => if String.eqb b "" then fullPath else trimTrailingSlash b +:+ fullPath
  | None => fullPath
  end.

End UrlParser.

(** ** The cache manager ([plugins/core/cache-manager.ts]) *)

Module CacheManager.
Import Types JsString Errors.

Record CacheEntry : Type := mkEntry {
  data : value;
  timestamp : Z;
  entry_staleTime : Z;
  entry_cacheTime : Z;
}.

Record CacheMeta : Type := mkMeta {
  url : string;
  meta_params : Params;
}.

Record t : Type := mk {
  cache : gmap string CacheEntry;
  meta : gmap string CacheMeta;
}.

Definition new : t := mk ∅ ∅.

(** The two errors of [update], under the names of the specification. *)
Definition NotFound (key : string) : JsError :=
  CacheError ("Cache entry " +:+ dquote +:+ key +:+ dquote +:+ " not found").

Definition UpdateFailed (key : string) : JsError :=
  CacheError ("Failed to update cache entry " +:+ dquote +:+ key +:+ dquote).

Definition isStale (now : Z) (entry : CacheEntry) : bool :=
  entry_staleTime entry <? now - timestamp entry.

Definition get (now : Z) (key : string) (c : t) : value :=
  match cache c !! key with
  | None => VUndefined
  | Some entry => if isStale now entry then VUndefined else data entry
  end.

Definition set (now : Z) (key : string) (data' : value) (options : QueryOptions)
    (c : t) : t :=
  let staleTime' := default 5000 (staleTime options) in
  let cacheTime' := default 300000 (cacheTime options) in
  mk (<[key := mkEntry data' now staleTime' cacheTime']> (cache c)) (meta c).

(** [update(key, updater)]; the updater is a function of the stored
    data that returns or throws. *)
Definition update (key : string) (updater : value -> Completion value)
  : M t unit :=
  fun c =>
    match cache c !! key with
    | None => (Throw (NotFound key), c)
    | Some entry =>
        match updater (data entry) with
        | Return d =>
            (Return tt,
             mk (<[key := mkEntry d (timestamp entry) (entry_staleTime entry)
                            (entry_cacheTime entry)]> (cache c))
                (meta c))
        | Throw _ => (Throw (UpdateFailed key), c)
        end
    end.

(** [invalidate(pattern)] for a compound key given as its segments. (The
    other form, a string turned into a [RegExp], is not part of this
    development.) *)
Definition invalidate (pattern : list string) (c : t) : t :=
  let key := join ":" pattern in
  mk (delete key (cache c)) (delete key (meta c)).

Definition clear (c : t) : t := mk ∅ ∅.

Definition has (key : string) (c : t) : bool :=
  bool_decide (is_Some (cache c !! key)).

(** [keys()], as the set of keys: the order of insertion is not kept by
    the embedding. *)
Definition keys (c : t) : gset string := dom (cache c).

Definition size (c : t) : nat := base.size (cache c).

Definition setMeta (key : string) (m : CacheMeta) (c : t) : t :=
  mk (cache c) (<[key := m]> (meta c)).

Definition extractParams (url' : string) : list string :=
  remove_dups (identMatches None url').

Definition getParamValues (url' : string) (params' : list string)
  : list (string * string) :=
  omap (fun param =>
          match matchFollowedBy (":" +:+ param) url' with
          | Some g => Some (param, g)
          | None => None
          end)
       params'.

(** [a === b] for a captured string and a parameter value, either of
    which may be [undefined]. *)
Definition strictEq (a : option string) (b : option ParamValue) : bool :=
  match a, b with
  | None, None => true
  | Some s, Some (PStr s') => String.eqb s s'
  | _, _ => false
  end.

Definition isRelated (url1 url2 : string) (params2 : Params) : bool :=
  if String.eqb url1 url2 then false
  else
    let params1 := extractParams url1 in
    let params1Values := getParamValues url1 params1 in
    if includes url1 "/:id/" && includes url2 "/:id/" then
      strictEq (prop "id" params1Values) (prop "id" params2)
    else if startsWith url1 (stripParams url2) then true
    else if startsWith url2 (stripParams url1) then true
    else false.

(** The keys collected by the loop of [invalidateRelated]. *)
Definition relatedKeys (url' : string) (c : t) : list string :=
  (map_to_list
     (filter (fun km => isRelated url' (url km.2) (meta_params km.2) = true)
        (meta c))).*1.

(** The body of the [forEach] that ends [invalidateRelated]. *)
Definition dropKey (c : t) (key : string) : t :=
  mk (delete key (cache c)) (delete key (meta c)).

Definition invalidateRelated (url' : string) (c : t) : t :=
  foldl dropKey c (relatedKeys url' c).

(** The write of the specification, which upserts the entry and its
    relationship metadata: [set] followed by [setMeta]. *)
Definition write (now : Z) (key : string) (data' : value) (m : CacheMeta)
    (c : t) : t :=
  setMeta key m (set now key data' noOptions c).

(** Example stores. Two register the metadata under the endpoints the
    entries were fetched from; two register it under the endpoint
    templates, with keys as the key generator builds them. *)
Definition usersAndPosts : t :=
  write 0 "/users/123/posts" (VStr "posts")
    (mkMeta "/users/123/posts" [("id", PStr "123")])
    (write 0 "/users/123" (VStr "user")
       (mkMeta "/users/123" [("id", PStr "123")]) new).

Definition usersAndOrders : t :=
  write 0 "/orders/55" (VStr "order")
    (mkMeta "/orders/55" [("id", PStr "55")])
    (write 0 "/users/123" (VStr "user")
       (mkMeta "/users/123" [("id", PStr "123")]) new).

Definition usersAndPostsByTemplate : t :=
  write 0 "/users/:id/posts|id:123" (VStr "posts")
    (mkMeta "/users/:id/posts" [("id", PStr "123")])
    (write 0 "/users/:id|id:123" (VStr "user")
       (mkMeta "/users/:id" [("id", PStr "123")]) new).

Definition usersAndOrdersByTemplate : t :=
  write 0 "/orders/:id|id:55" (VStr "order")
    (mkMeta "/orders/:id" [("id", PStr "55")])
    (write 0 "/users/:id|id:123" (VStr "user")
       (mkMeta "/users/:id" [("id", PStr "123")]) new).

(** [invalidate(pattern)] for a string pattern whose only character with
    a meaning in a [RegExp] is the star: every stored key that the
    pattern matches somewhere goes, with its metadata. Other patterns
    are outside the embedding. *)
Definition invalidateString (pattern : string) (c : t) : option t :=
  if plainPattern pattern then
    Some (foldl dropKey c
            (filter (fun key => globTest pattern key = true)
               (map_to_list (cache c)).*1))
  else None.

(** The calls that the client's [cache] object and the handlers of the
    plugin make on the cache manager; [setMeta] is not among them. *)
Inductive Call : Type :=
| CSet (now : Z) (key : string) (data' : value) (options : QueryOptions)
| CUpdate (key : string) (updater : value -> Completion value)
| CInvalidate (pattern : list string)
| CInvalidateString (pattern : string)
| CInvalidateRelated (url' : string)
| CClear.

(** The cache after a call, when the embedding covers the call. *)
Definition call (k : Call) (c : t) : option t :=
  match k with
  | CSet now key data' options => Some (set now key data' options c)
  | CUpdate key updater => Some (update key updater c).2
  | CInvalidate pattern => Some (invalidate pattern c)
  | CInvalidateString pattern => invalidateString pattern c
  | CInvalidateRelated url' => Some (invalidateRelated url' c)
  | CClear => Some (clear c)
  end.

Inductive Reachable : t -> Prop :=
| Reachable_new : Reachable new
| Reachable_call k c c' : Reachable c -> call k c = Some c' -> Reachable c'.

End CacheManager.

(** ** The request handler ([plugins/core/request-handler.ts]) *)

Module RequestHandler.
Import Types JsString Errors.

(** What [withRetry] does, in order: it calls [fn] for the loop index
    [i], or it waits [ms] milliseconds. *)
Inductive RetryEvent : Type :=
| Attempt (i : Z)
| Delay (ms : Z).

(** [typeof retry === 'number' ? retry : 3], with the default [3] of
    the parameter. *)
Definition attemptsOf (retry' : option (Z + bool)) : Z :=
  match retry' with
  | Some (inl n) => n
  | Some (inr _) => 3
  | None => 3
  end.

(** The loop of [withRetry] from index [i], with [remaining] iterations
    before [i] reaches [attempts]. [fn i] is the completion of the call
    that the iteration [i] makes. *)
Fixpoint withRetryFrom {T} (fn : Z -> Completion T) (attempts : Z)
    (remaining : nat) (i : Z) : Completion T * list RetryEvent :=
  match remaining with
  | O => (Throw (Error_ "Retry failed"), [])
  | S remaining' =>
      match fn i with
      | Return r => (Return r, [Attempt i])
      | Throw error =>
          if i =? attempts - 1 then (Throw error, [Attempt i])
          else
            let '(r, events) := withRetryFrom fn attempts remaining' (i + 1) in
            (r, Attempt i :: Delay (i * 1000) :: events)
      end
  end.

Definition withRetry {T} (fn : Z -> Completion T) (retry' : option (Z + bool))
  : Completion T * list RetryEvent :=
  let attempts := attemptsOf retry' in
  withRetryFrom fn attempts (Z.to_nat attempts) 0.

Definition validateData (data : value) : Completion unit :=
  if nullish data then
    Throw (ValidationError "Response data cannot be null or undefined")
  else Return tt.

(** [execute]: [responses i] is what the global [fetch] answers to the
    call of the attempt [i] (a rejection when the attempt is aborted).
    The result is the [data] of the object the method returns. *)
Definition execute (config' : ClientConfig) (options : QueryOptions)
    (responses : Z -> Completion Response) : Completion value * list RetryEvent :=
  let timeout' :=
    match retryDelay options with Some t => Some t | None => timeout config' end in
  let '(attempted, events) := withRetry responses (retry options) in
  let body :=
    match attempted with
    | Throw error => Throw error
    | Return response =>
        if negb (ok response) then
          Throw (NetworkError ("HTTP " +:+ string_of_Z (status response)
                               +:+ ": " +:+ statusText response))
        else
          match json response with
          | Throw error => Throw error
          | Return data =>
              match validateData data with
              | Throw error => Throw error
              | Return _ => Return data
              end
          end
    end in
  (match body with
   | Return data => Return data
   | Throw error =>
       if String.eqb (err_name error) "AbortError" then
         Throw (TimeoutError (default 0 timeout'))
       else Throw error
   end, events).

Record t : Type := mk {
  pendingRequests : gmap string nat;
  config : ClientConfig;
}.

(** A promise returned by [execute]: the request it serves and, once
    settled, its completion. *)
Record Request : Type := mkRequest {
  req_key : string;
  req_urlTemplate : string;
  req_options : QueryOptions;
  req_settled : option (Completion value);
}.

(** One call of the global [fetch]. *)
Record FetchCall : Type := mkCall {
  call_request : nat;
  call_urlTemplate : string;
  call_attempt : Z;
}.

(** The handler together with the promises it created and the calls of
    the global [fetch] made so far. *)
Record Runtime : Type := mkRuntime {
  handler : t;
  requests : gmap nat Request;
  fetchCalls : list FetchCall;
  nextPromise : nat;
}.

Definition start (config' : ClientConfig) : Runtime :=
  mkRuntime (mk ∅ config') ∅ [] 0.

Section WithCollation.
Context `{Collation}.

Definition buildKey (url : string) (options : QueryOptions) : string :=
  let params' := default [] (params options) in
  let searchParams' := default [] (searchParams options) in
  UrlParser.generateCacheKey url (spread params' searchParams').

(** A call of [fetch], up to its first suspension: the promise whose
    completion the caller receives. A new request runs [execute] up to
    the call of the global [fetch] for its first attempt. *)
Definition fetch (urlTemplate : string) (options : QueryOptions) (rt : Runtime)
  : nat * Runtime :=
  let key := buildKey urlTemplate options in
  match pendingRequests (handler rt) !! key with
  | Some request => (request, rt)
  | None =>
      let request := nextPromise rt in
      let firstCall :=
        if 0 <? attemptsOf (retry options) then [mkCall request urlTemplate 0]
        else [] in
      (request,
       mkRuntime
         (mk (<[key := request]> (pendingRequests (handler rt)))
             (config (handler rt)))
         (<[request := mkRequest key urlTemplate options None]> (requests rt))
         (fetchCalls rt ++ firstCall)
         (S (nextPromise rt)))
  end.

End WithCollation.

(** The calls of the global [fetch] after the first attempt. *)
Definition laterCalls (request : nat) (urlTemplate : string)
    (events : list RetryEvent) : list FetchCall :=
  omap (fun event =>
          match event with
          | Attempt i => if 0 <? i then Some (mkCall request urlTemplate i) else None
          | Delay _ => None
          end)
       events.

(** The request [request] runs to its end against the answers
    [responses]; then the caller that started it resumes and its
    [finally] removes the key. *)
Definition settle (request : nat) (responses : Z -> Completion Response)
    (rt : Runtime) : Runtime :=
  match requests rt !! request with
  | Some (mkRequest key urlTemplate options None) =>
      let '(completion, events) :=
        execute (config (handler rt)) options responses in
      mkRuntime
        (mk (delete key (pendingRequests (handler rt))) (config (handler rt)))
        (<[request := mkRequest key urlTemplate options (Some completion)]>
           (requests rt))
        (fetchCalls rt ++ laterCalls request urlTemplate events)
        (nextPromise rt)
  | _ => rt
  end.

(** What a caller that holds the promise [request] receives. *)
Definition received (request : nat) (rt : Runtime) : option (Completion value) :=
  match requests rt !! request with
  | Some r => req_settled r
  | None => None
  end.

(** The schedule the specification describes for [attempts] failing
    attempts: attempt [i], then a wait of [i * baseDelayMs] before the
    next one, and no wait after the last. *)
Fixpoint linearBackoff (baseDelayMs : Z) (attempts : nat) (i : Z)
  : list RetryEvent :=
  match attempts with
  | O => []
  | S O => [Attempt i]
  | S attempts' =>
      Attempt i :: Delay (i * baseDelayMs) :: linearBackoff baseDelayMs attempts' (i + 1)
  end.

(** [updateConfig(config)]: the fields that the argument gives replace
    those of the handler. *)
Definition updateConfig (config' : ClientConfig) (h : t) : t :=
  mk (pendingRequests h)
     (mkClientConfig
        (match baseUrl config' with Some b => Some b | None => baseUrl (config h) end)
        (match timeout config' with Some x => Some x | None => timeout (config h) end)).

(** Every pending key names a request that has not settled and that was
    started for that key, and every promise is older than the next. *)
Definition wellFormed (rt : Runtime) : Prop :=
  (forall key request,
     pendingRequests (handler rt) !! key = Some request ->
     exists urlTemplate options,
       requests rt !! request = Some (mkRequest key urlTemplate options None)) /\
  (forall request r, requests rt !! request = Some r ->
                     (request < nextPromise rt)%nat).

Section Reach.
Context `{Collation}.

(** The runtimes that calls of [fetch] and [updateConfig] and the
    settling of requests lead to. *)
Inductive Reachable : Runtime -> Prop :=
| Reachable_start config' : Reachable (start config')
| Reachable_fetch urlTemplate options rt :
    Reachable rt -> Reachable (fetch urlTemplate options rt).2
| Reachable_settle request responses rt :
    Reachable rt -> Reachable (settle request responses rt)
| Reachable_updateConfig config' rt :
    Reachable rt ->
    Reachable (mkRuntime (updateConfig config' (handler rt)) (requests rt)
                 (fetchCalls rt) (nextPromise rt)).

End Reach.

End RequestHandler.

(** ** The kernel ([kernel.ts]) with the cache-manager plugin *)

Module Kernel.
Import Types.

(** The events the controllers emit, with their payloads. *)
Inductive Event : Type :=
| QueryState (key : string) (snapshot : StateMachine.StateSnapshot)
| MutationState (key : string) (snapshot : StateMachine.StateSnapshot)
| QuerySuccess (key : string) (data : value) (options : QueryOptions) (url : string)
| CacheInvalidate (pattern : list string)
| CacheInvalidateAuto (url : string)
| MutationRollback (context : value).

(** [cache] is [context.cache]: it is there when [cacheManagerPlugin]
    is installed, and then the event bus holds the three handlers of
    its [install]. [emitted] records the events in order. *)
Record t : Type := mk {
  config : ClientConfig;
  cache : option CacheManager.t;
  emitted : list Event;
}.

(** A kernel with the cache-manager plugin registered. *)
Definition withCache (config' : ClientConfig) (c : CacheManager.t) : t :=
  mk config' (Some c) [].

(** The handlers that [cacheManagerPlugin.install] registers. *)
Definition cacheHandlers (now : Z) (event : Event) (c : CacheManager.t)
  : CacheManager.t :=
  match event with
  | QuerySuccess key data options _ => CacheManager.set now key data options c
  | CacheInvalidate pattern => CacheManager.invalidate pattern c
  | CacheInvalidateAuto url => CacheManager.invalidateRelated url c
  | QueryState _ _ | MutationState _ _ | MutationRollback _ => c
  end.

(** [emit(event, data)]: every handler registered for the event runs. *)
Definition emit (now : Z) (event : Event) (k : t) : t :=
  mk (config k)
     (match cache k with
      | Some c => Some (cacheHandlers now event c)
      | None => None
      end)
     (emitted k ++ [event]).

(** [emitAsync('request:fetch', ...)], given what the global [fetch]
    answers: the [data] of the object it resolves to. *)
Definition emitAsyncRequestFetch (answer : Completion Response) : Completion value :=
  match answer with
  | Throw e => Throw e
  | Return response =>
      if negb (ok response) then
        Throw (Error_ ("HTTP " +:+ string_of_Z (status response)
                       +:+ ": " +:+ statusText response))
      else json response
  end.

End Kernel.

(** ** What the two controllers share *)

Module Controller.
Import Types.

(** The state a controller runs in: the clock, the kernel, the instance
    itself, and the snapshots delivered to the listeners that clients
    registered with [onStateChange]. *)
Record World (I : Type) : Type := mkWorld {
  clock : Z;
  kernel : Kernel.t;
  this : I;
  delivered : list (nat * StateMachine.StateSnapshot);
}.
Arguments mkWorld {I}.
Arguments clock {I}.
Arguments kernel {I}.
Arguments this {I}.
Arguments delivered {I}.

(** What the network answers to one call of the global [fetch], and how
    long after the call. *)
Record Network : Type := mkNetwork {
  elapsed : Z;
  answer : Completion Response;
}.

Section Shared.
Context {I : Type}.

Definition setThis (f : I -> I) (w : World I) : World I :=
  mkWorld (clock w) (kernel w) (f (this w)) (delivered w).

Definition lift {A} (c : Completion A) : M (World I) A :=
  fun w => (c, w).

(** [kernel.emit(event, payload)]. *)
Definition emit (event : Kernel.Event) : M (World I) unit :=
  modify (fun w =>
            mkWorld (clock w) (Kernel.emit (clock w) event (kernel w)) (this w)
              (delivered w)).

(** An [await] on the network: time passes. *)
Definition await (network : Network) : M (World I) unit :=
  modify (fun w =>
            mkWorld (clock w + elapsed network) (kernel w) (this w) (delivered w)).

Context (stateMachine : I -> StateMachine.t)
        (setStateMachine : StateMachine.t -> I -> I)
        (handleStateChange : I -> StateMachine.StateSnapshot -> Kernel.Event).

(** One delivery of [notify]. The listener 0 is the [handleStateChange]
    that the constructor subscribes; the others only observe. *)
Definition deliver (w : World I) (d : nat * StateMachine.StateSnapshot) : World I :=
  if Nat.eqb d.1 0 then
    mkWorld (clock w)
      (Kernel.emit (clock w) (handleStateChange (this w) d.2) (kernel w))
      (this w) (delivered w)
  else mkWorld (clock w) (kernel w) (this w) (delivered w ++ [d]).

(** [this.stateMachine.transition(newState, data, error)]. *)
Definition transition (newState : StateMachine.State) (data : value)
    (err : option JsError) : M (World I) unit :=
  fun w =>
    match StateMachine.transition (clock w) newState data err
            (stateMachine (this w)) with
    | (Throw e, _) => (Throw e, w)
    | (Return (_, deliveries), sm) =>
        (Return tt, foldl deliver (setThis (setStateMachine sm) w) deliveries)
    end.

End Shared.

End Controller.

(** ** The query controller ([query.ts]) *)

Module QueryInstance.
Import Types Controller.

Record t : Type := mk {
  urlTemplate : string;
  options : QueryOptions;
  stateMachine : StateMachine.t;
  abortController : bool;
  key : string;
  hasFetched : bool;
}.

Definition setStateMachine (sm : StateMachine.t) (q : t) : t :=
  mk (urlTemplate q) (options q) sm (abortController q) (key q) (hasFetched q).

Definition setAbortController (b : bool) (q : t) : t :=
  mk (urlTemplate q) (options q) (stateMachine q) b (key q) (hasFetched q).

Definition setHasFetched (b : bool) (q : t) : t :=
  mk (urlTemplate q) (options q) (stateMachine q) (abortController q) (key q) b.

Definition buildKey `{Collation} (urlTemplate' : string) (options' : QueryOptions)
  : string :=
  UrlParser.generateCacheKey urlTemplate'
    (spread (default [] (params options')) (default [] (searchParams options'))).

(** The constructor. *)
Definition new `{Collation} (urlTemplate' : string) (options' : QueryOptions) : t :=
  mk urlTemplate' options' (StateMachine.subscribe 0 StateMachine.new) false
     (buildKey urlTemplate' options') false.

Definition handleStateChange (q : t) (snapshot : StateMachine.StateSnapshot)
  : Kernel.Event :=
  Kernel.QueryState (key q) snapshot.

Definition transition :=
  Controller.transition stateMachine setStateMachine handleStateChange.

Definition applySelect (data : value) : M (World t) value :=
  select' ← gets (fun w => select (options (this w)));
  match select' with
  | Some f => lift (f data)
  | None => mret data
  end.

Definition getPlaceholderOrUndefined : M (World t) value :=
  placeholder ← gets (fun w => placeholderData (options (this w)));
  match placeholder with
  | Some (PlaceholderValue v) => mret v
  | Some (PlaceholderFn f) => lift f
  | None => mret VUndefined
  end.

Definition isUndefined (v : value) : bool :=
  match v with VUndefined => true | _ => false end.

(** [fetch()], against the answer of the network to its request. A
    rejected promise is a [Throw]. *)
Definition fetch (network : Network) : M (World t) value :=
  modify (setThis (setAbortController true));;
  opts ← gets (fun w => options (this w));
  match enabled opts with
  | Some false => getPlaceholderOrUndefined
  | _ =>
      transition StateMachine.loading VUndefined None;;
      try_finally
        (try_catch
           (cachedData ← gets (fun w =>
              match Kernel.cache (kernel w) with
              | Some c => CacheManager.get (clock w) (key (this w)) c
              | None => VUndefined
              end);
            if negb (isUndefined cachedData) then
              data ← applySelect cachedData;
              transition StateMachine.success data None;;
              modify (setThis (setHasFetched true));;
              call_opt (onSuccess opts) data;;
              mret data
            else
              await network;;
              result ← lift (Kernel.emitAsyncRequestFetch (answer network));
              data ← applySelect result;
              transition StateMachine.success data None;;
              modify (setThis (setHasFetched true));;
              q ← gets this;
              emit (Kernel.QuerySuccess (key q) result (options q) (urlTemplate q));;
              call_opt (onSuccess opts) data;;
              mret data)
           (fun error =>
              transition StateMachine.error VUndefined (Some error);;
              call_opt (onError opts) error;;
              throw error))
        (sm ← gets (fun w => stateMachine (this w));
         call_opt (onSettled opts) (StateMachine.getData sm, StateMachine.getError sm);;
         modify (setThis (setAbortController false)))
  end.

(** The result of [fetchSafe]: [{ data, error: null }] or
    [{ data: null, error }]. *)
Record SafeResult : Type := mkSafe {
  safe_data : value;
  safe_error : option JsError;
}.

Definition fetchSafe (network : Network) : M (World t) SafeResult :=
  try_catch
    (data ← fetch network;
     mret (mkSafe data None))
    (fun error => mret (mkSafe VNull (Some error))).

Definition refetch (network : Network) : M (World t) value := fetch network.

(** The observers of the instance. [getState] is read at clock [now]. *)
Definition getState (now : Z) (q : t) : StateMachine.StateSnapshot :=
  default (StateMachine.mkSnapshot StateMachine.idle VUndefined None now)
    (last (StateMachine.getHistory (stateMachine q))).

Definition getData (q : t) : value := StateMachine.getData (stateMachine q).

Definition getError (q : t) : option JsError :=
  StateMachine.getError (stateMachine q).

Definition isLoading (q : t) : bool :=
  bool_decide (StateMachine.getState (stateMachine q) = StateMachine.loading)
  && negb (hasFetched q).

Definition isFetching (q : t) : bool :=
  bool_decide (StateMachine.getState (stateMachine q) = StateMachine.loading).

Definition isSuccess (q : t) : bool :=
  bool_decide (StateMachine.getState (stateMachine q) = StateMachine.success).

Definition isError (q : t) : bool :=
  bool_decide (StateMachine.getState (stateMachine q) = StateMachine.error).

Definition isIdle (q : t) : bool :=
  bool_decide (StateMachine.getState (stateMachine q) = StateMachine.idle).

Definition isStale (q : t) : bool :=
  bool_decide (StateMachine.getState (stateMachine q) = StateMachine.stale).

End QueryInstance.

(** ** The mutation controller ([mutation.ts]) *)

Module MutationInstance.
Import Types Errors Controller.

Inductive Invalidates : Type :=
| Auto
| Patterns (patterns : list string).

(** The [optimistic] function receives the cache manager and the
    variables; it works on the cache and may throw. *)
Record MutationOptions : Type := mkMutationOptions {
  method : option string;
  params : option Params;
  optimistic : option (Z -> value -> M CacheManager.t unit);
  invalidates : option Invalidates;
  onSuccess : option (value * value -> option JsError);
  onError : option (JsError * value * value -> option JsError);
  onMutate : option (value -> Completion value);
  onSettled : option (value * option JsError * value -> option JsError);
}.

Record t : Type := mk {
  urlTemplate : string;
  options : MutationOptions;
  stateMachine : StateMachine.t;
  optimisticContext : value;
  key : string;
}.

Definition setStateMachine (sm : StateMachine.t) (m : t) : t :=
  mk (urlTemplate m) (options m) sm (optimisticContext m) (key m).

Definition setOptimisticContext (context : value) (m : t) : t :=
  mk (urlTemplate m) (options m) (stateMachine m) context (key m).

Definition buildKey (urlTemplate' : string) (options' : MutationOptions) : string :=
  urlTemplate' +:+ ":" +:+ default "POST" (method options').

(** The constructor. *)
Definition new (urlTemplate' : string) (options' : MutationOptions) : t :=
  mk urlTemplate' options' (StateMachine.subscribe 0 StateMachine.new) VNull
     (buildKey urlTemplate' options').

Definition handleStateChange (m : t) (snapshot : StateMachine.StateSnapshot)
  : Kernel.Event :=
  Kernel.MutationState (key m) snapshot.

Definition transition :=
  Controller.transition stateMachine setStateMachine handleStateChange.

(** [executeMutation(variables)], given the answer of the network. *)
Definition executeMutation (network : Network) : M (World t) value :=
  await network;;
  match answer network with
  | Throw e => throw e
  | Return response =>
      if negb (ok response) then
        throw (QueryFlowError "NETWORK_ERROR"
                 ("HTTP " +:+ string_of_Z (status response)
                  +:+ ": " +:+ statusText response))
      else lift (json response)
  end.

Definition rollback : M (World t) unit :=
  context ← gets (fun w => optimisticContext (this w));
  emit (Kernel.MutationRollback context).

Definition handleInvalidation : M (World t) unit :=
  m ← gets this;
  match invalidates (options m) with
  | Some Auto => emit (Kernel.CacheInvalidateAuto (urlTemplate m))
  | Some (Patterns patterns) => emit (Kernel.CacheInvalidate patterns)
  | None => mret tt
  end.

(** The optimistic step of [mutate]: the function is applied to the
    cache of the kernel when both are there; what it has written stays
    when it throws, and the error is swallowed. *)
Definition applyOptimistic (context variables : value) : M (World t) unit :=
  fun w =>
    match optimistic (options (this w)), Kernel.cache (kernel w) with
    | Some f, Some c =>
        let '(r, c') := f (clock w) variables c in
        let w' :=
          mkWorld (clock w)
            (Kernel.mk (Kernel.config (kernel w)) (Some c')
               (Kernel.emitted (kernel w)))
            (this w) (delivered w) in
        match r with
        | Return _ => (Return tt, w')
        | Throw _ => (Return tt, setThis (setOptimisticContext context) w')
        end
    | _, _ => (Return tt, w)
    end.

(** [mutate(variables)], against the answer of the network to its
    request. *)
Definition mutate (network : Network) (variables : value) : M (World t) value :=
  transition StateMachine.loading VUndefined None;;
  opts ← gets (fun w => options (this w));
  try_finally
    (try_catch
       (context ←
          match onMutate opts with
          | Some f =>
              context ← lift (f variables);
              modify (setThis (setOptimisticContext context));;
              mret context
          | None => mret VUndefined
          end;
        applyOptimistic context variables;;
        result ← executeMutation network;
        transition StateMachine.success result None;;
        call_opt (onSuccess opts) (result, variables);;
        handleInvalidation;;
        mret result)
       (fun error =>
          rollback;;
          transition StateMachine.error VUndefined (Some error);;
          context ← gets (fun w => optimisticContext (this w));
          call_opt (onError opts) (error, variables, context);;
          throw error))
    (modify (setThis (setOptimisticContext VNull));;
     sm ← gets (fun w => stateMachine (this w));
     call_opt (onSettled opts)
       (StateMachine.getData sm, StateMachine.getError sm, variables)).

(** An [optimistic] function that sets the cache key [K] to [X]. *)
Definition optimisticSet (K : string) (X : value) : Z -> value -> M CacheManager.t unit :=
  fun now _ => modify (CacheManager.set now K X noOptions).

Definition mutateAsync (network : Network) (variables : value)
  : M (World t) value :=
  mutate network variables.

(** The observers of the instance, and [reset]. *)
Definition getState (now : Z) (m : t) : StateMachine.StateSnapshot :=
  default (StateMachine.mkSnapshot StateMachine.idle VUndefined None now)
    (last (StateMachine.getHistory (stateMachine m))).

Definition getData (m : t) : value := StateMachine.getData (stateMachine m).

Definition getError (m : t) : option JsError :=
  StateMachine.getError (stateMachine m).


Definition isPending (m : t) : bool :=
  bool_decide (StateMachine.getState (stateMachine m) = StateMachine.loading).

Definition isSuccess (m : t) : bool :=
  bool_decide (StateMachine.getState (stateMachine m) = StateMachine.success).

Definition isError (m : t) : bool :=
  bool_decide (StateMachine.getState (stateMachine m) = StateMachine.error).

Definition isIdle (m : t) : bool :=
  bool_decide (StateMachine.getState (stateMachine m) = StateMachine.idle).

Definition reset (m : t) : t :=
  mk (urlTemplate m) (options m) (StateMachine.reset (stateMachine m)) VNull
     (key m).

End MutationInstance.

(** ** The state manager ([plugins/core/state-manager.ts]) *)

Module StateManager.

(** The two maps of the class. A machine is an object shared between
    the map and the caller: what a call does to it is written back. *)
Record t : Type := mk {
  queries : gmap string StateMachine.t;
  mutations : gmap string StateMachine.t;
}.

Definition new : t := mk ∅ ∅.

Definition getQueryState (key : string) (m : t)
  : option StateMachine.StateSnapshot :=
  sm ← queries m !! key; last (StateMachine.getHistory sm).

(** [setQueryState(key, snapshot)] at clock reading [now]: the machine
    of the key, created and stored when there is none, takes the
    transition that the snapshot names. The result is the deliveries to
    the listeners of that machine. *)
Definition setQueryState (now : Z) (key : string)
    (snapshot : StateMachine.StateSnapshot)
  : M t (list (nat * StateMachine.StateSnapshot)) :=
  fun m =>
    let sm := default StateMachine.new (queries m !! key) in
    match StateMachine.transition now (StateMachine.snap_state snapshot)
            (StateMachine.snap_data snapshot) (StateMachine.snap_error snapshot)
            sm with
    | (Return (_, deliveries), sm') =>
        (Return deliveries, mk (<[key := sm']> (queries m)) (mutations m))
    | (Throw e, sm') => (Throw e, mk (<[key := sm']> (queries m)) (mutations m))
    end.

Definition subscribeToQuery (key : string) (listener : nat) (m : t) : t :=
  let sm := default StateMachine.new (queries m !! key) in
  mk (<[key := StateMachine.subscribe listener sm]> (queries m)) (mutations m).

Definition getMutationState (key : string) (m : t)
  : option StateMachine.StateSnapshot :=
  sm ← mutations m !! key; last (StateMachine.getHistory sm).

Definition setMutationState (now : Z) (key : string)
    (snapshot : StateMachine.StateSnapshot)
  : M t (list (nat * StateMachine.StateSnapshot)) :=
  fun m =>
    let sm := default StateMachine.new (mutations m !! key) in
    match StateMachine.transition now (StateMachine.snap_state snapshot)
            (StateMachine.snap_data snapshot) (StateMachine.snap_error snapshot)
            sm with
    | (Return (_, deliveries), sm') =>
        (Return deliveries, mk (queries m) (<[key := sm']> (mutations m)))
    | (Throw e, sm') => (Throw e, mk (queries m) (<[key := sm']> (mutations m)))
    end.

Definition subscribeToMutation (key : string) (listener : nat) (m : t) : t :=
  let sm := default StateMachine.new (mutations m !! key) in
  mk (queries m) (<[key := StateMachine.subscribe listener sm]> (mutations m)).

Definition removeQuery (key : string) (m : t) : t :=
  mk (delete key (queries m)) (mutations m).

Definition removeMutation (key : string) (m : t) : t :=
  mk (queries m) (delete key (mutations m)).

Definition clearQueries (m : t) : t := mk ∅ (mutations m).

Definition clearMutations (m : t) : t := mk (queries m) ∅.

Definition clear (m : t) : t := clearMutations (clearQueries m).

End StateManager.

(** ** The event bus ([core/event-bus.ts]) *)

Module EventBus.

(** [listeners]: for each event the set of its handlers, kept by
    identity in order of registration. Handlers observe: they are taken
    to return normally and to leave the bus alone. *)
Record t : Type := mk {
  listeners : gmap string (list nat);
}.

Definition new : t := mk ∅.

Definition on (event : string) (handler : nat) (bus : t) : t :=
  let handlers := default [] (listeners bus !! event) in
  mk (<[event := if decide (handler ∈ handlers) then handlers
                 else handlers ++ [handler]]> (listeners bus)).

(** [off(event, handler)], which is also what the function returned by
    [on] does. *)
Definition off (event : string) (handler : nat) (bus : t) : t :=
  match listeners bus !! event with
  | Some handlers =>
      mk (<[event := filter (fun h => h ≠ handler) handlers]> (listeners bus))
  | None => bus
  end.

(** [emit(event, data)]: the calls made, in order. *)
Definition emit {D : Type} (event : string) (data : D) (bus : t) : list (nat * D) :=
  match listeners bus !! event with
  | Some handlers => map (fun h => (h, data)) handlers
  | None => []
  end.

Definition clear (bus : t) : t := mk ∅.


(** The calls that change a bus. *)
Inductive Call : Type :=
| COn (event : string) (handler : nat)
| COff (event : string) (handler : nat)
| CClear.

Definition call (c : Call) (bus : t) : t :=
  match c with
  | COn event handler => on event handler bus
  | COff event handler => off event handler bus
  | CClear => clear bus
  end.

Inductive Reachable : t -> Prop :=
| Reachable_new : Reachable new
| Reachable_call c bus : Reachable bus -> Reachable (call c bus).

End EventBus.

(** ** Deep equality ([utils/deep-equal.ts]) *)

Module DeepEqual.
Import Types.

(** [deepEqual(a, b)]. Two values of the embedding that are the same
    object are equal in structure, and on those the function answers
    [true] as the identity test would. An object is the list of its own
    properties, each name once; [b[key]] is [undefined] for a name that
    [b] lacks. *)
Fixpoint deepEqual (a b : value) {struct a} : bool :=
  match a, b with
  | VUndefined, VUndefined => true
  | VNull, VNull => true
  | VBool x, VBool y => Bool.eqb x y
  | VNum x, VNum y => Z.eqb x y
  | VStr x, VStr y => String.eqb x y
  | VArr xs, VArr ys =>
      Nat.eqb (length xs) (length ys)
      && (fix items (xs ys : list value) : bool :=
            match xs, ys with
            | x :: xs', y :: ys' => deepEqual x y && items xs' ys'
            | _, _ => true
            end) xs ys
  | VObj fa, VObj fb =>
      Nat.eqb (length fa) (length fb)
      && (fix keys (fa : list (string * value)) : bool :=
            match fa with
            | [] => true
            | (key, va) :: fa' =>
                deepEqual va (default VUndefined (prop key fb)) && keys fa'
            end) fa
  | _, _ => false
  end.

(** Objects list each of their property names once, at every depth. *)
Fixpoint distinctNames (v : value) : bool :=
  match v with
  | VUndefined | VNull | VBool _ | VNum _ | VStr _ => true
  | VArr xs =>
      (fix items (xs : list value) : bool :=
         match xs with
         | [] => true
         | x :: xs' => distinctNames x && items xs'
         end) xs
  | VObj fa =>
      bool_decide (NoDup fa.*1)
      && (fix fields (fa : list (string * value)) : bool :=
            match fa with
            | [] => true
            | (_, va) :: fa' => distinctNames va && fields fa'
            end) fa
  end.


End DeepEqual.

(** ** The retry helper ([utils/retry.ts]) *)

Module Retry.

(** What the helper threw: an error, or the [null] that [lastError]
    holds when no attempt was made. *)
Inductive Outcome (T : Type) : Type :=
| Returned (r : T)
| Thrown (e : JsError)
| ThrownNull.
Arguments Returned {T} r.
Arguments Thrown {T} e.
Arguments ThrownNull {T}.

(** What the helper does, in order. *)
Inductive Event : Type :=
| Attempt (i : Z)
| Delay (ms : Z).

(** The loop of [retry] from index [i], with [remaining] iterations
    left; [lastError] is the variable of that name. *)
Fixpoint retryFrom {T} (fn : Z -> Completion T) (attempts delay : Z)
    (remaining : nat) (i : Z) (lastError : option JsError)
  : Outcome T * list Event :=
  match remaining with
  | O =>
      (match lastError with Some e => Thrown e | None => ThrownNull end, [])
  | S remaining' =>
      match fn i with
      | Return r => (Returned r, [Attempt i])
      | Throw error =>
          let '(r, events) :=
            retryFrom fn attempts delay remaining' (i + 1) (Some error) in
          if i <? attempts - 1 then
            (r, Attempt i :: Delay (delay * (i + 1)) :: events)
          else (r, Attempt i :: events)
      end
  end.

(** [count] attempts from index [i], with a wait of [delay * (i + 1)]
    after the attempt [i] and none after the last. *)
Fixpoint schedule (delay : Z) (count : nat) (i : Z) : list Event :=
  match count with
  | O => []
  | S O => [Attempt i]
  | S count' => Attempt i :: Delay (delay * (i + 1)) :: schedule delay count' (i + 1)
  end.

(** [retry(fn, attempts, delay)]; the defaults are 3 and 1000. *)
Definition retry {T} (fn : Z -> Completion T) (attempts delay : option Z)
  : Outcome T * list Event :=
  let attempts' := default 3 attempts in
  let delay' := default 1000 delay in
  retryFrom fn attempts' delay' (Z.to_nat attempts') 0 None.

End Retry.

(** * Properties *)

Section StateMachineFacts.
Import StateMachine.



Lemma transition_valid now to d e sm :
  isValidTransition (state sm) to = true ->
  transition now to d e sm =
    (let snapshot := mkSnapshot to (coalesce d (data sm)) e now in
     let sm1 := mk to (coalesce d (data sm)) e (history sm ++ [snapshot]) (listeners sm) in
     (Return (snapshot, notify sm1 snapshot), sm1)).
Proof.
  intros Hv. unfold transition. rewrite Hv. simpl. now destruct e.
Qed.

Lemma transition_invalid now to d e sm :
  isValidTransition (state sm) to = false ->
  transition now to d e sm = (Throw (InvalidTransition (state sm) to), sm).
Proof.
  intros Hv. unfold transition. now rewrite Hv.
Qed.





(** C10. A transition in the table that is called without the error
    argument stores a null error, whatever error was stored before, and
    one called without the data argument keeps the stored data; in both
    cases the snapshot appended to the history carries the merged
    values. *)
Theorem C10_transition_merges (sm : t) (now : Z) (to : State) :
  isValidTransition (state sm) to = true ->
  (forall d, exists snap deliveries sm',
     transition now to d None sm = (Return (snap, deliveries), sm') /\
     error_ sm' = None /\ snap_error snap = None /\
     history sm' = history sm ++ [snap]) /\
  (forall e, exists snap deliveries sm',
     transition now to VUndefined e sm = (Return (snap, deliveries), sm') /\
     data sm' = data sm /\ snap_data snap = data sm /\
     history sm' = history sm ++ [snap]).
Proof.
  intros Hv. split.
  - intros d. rewrite transition_valid by exact Hv. simpl.
    do 3 eexists. repeat split; reflexivity.
  - intros e. rewrite transition_valid by exact Hv. simpl.
    do 3 eexists. repeat split; reflexivity.
Qed.

Lemma C10_transition_merges_witness :
  let boom := Error_ "boom" in
  let sm := mk error (VStr "kept") (Some boom)
               [mkSnapshot loading (VStr "kept") None 1;
                mkSnapshot error (VStr "kept") (Some boom) 2] [] in
  isValidTransition (state sm) loading = true /\
  (forall d, exists snap deliveries sm',
     transition 3 loading d None sm = (Return (snap, deliveries), sm') /\
     error_ sm' = None /\ snap_error snap = None /\
     history sm' = history sm ++ [snap]) /\
  (forall e, exists snap deliveries sm',
     transition 3 loading VUndefined e sm = (Return (snap, deliveries), sm') /\
     data sm' = data sm /\ snap_data snap = data sm /\
     history sm' = history sm ++ [snap]).
Proof.
  split.
  - reflexivity.
  - apply (C10_transition_merges _ 3 loading). reflexivity.
Defined.

End StateMachineFacts.

Section CacheManagerFacts.
Import Types JsString CacheManager.

Lemma get_set_same now now' key v options c :
  get now' key (set now key v options c) =
  if default 5000 (staleTime options) <? now' - now then VUndefined else v.
Proof.
  unfold get, set, isStale. simpl. now rewrite lookup_insert_eq.
Qed.

(** C4. [get] returns the data of a stored entry whose age is within its
    staleness window, and [undefined] for a missing entry and for a stale
    one (age above the window). Reading a stale entry leaves it in the
    store, where [has], [keys] and [size] still count it, and an explicit
    invalidation is what removes it. An entry written with a staleness
    window of -1 reads as [undefined] at once and ever after; one written
    with a window of 10000 reads as the written value at once and for
    the next 10000 ms. *)
Theorem C4_get_masks_stale_entries (c : t) (now : Z) (key : string) :
  (cache c !! key = None -> get now key c = VUndefined) /\
  (forall entry, cache c !! key = Some entry ->
     (now - timestamp entry <= entry_staleTime entry ->
        get now key c = data entry) /\
     (now - timestamp entry > entry_staleTime entry ->
        get now key c = VUndefined /\
        has key c = true /\ key ∈ keys c /\ (0 < size c)%nat)) /\
  (forall segments, join ":" segments = key ->
     cache (invalidate segments c) !! key = None) /\
  (forall v options later,
     staleTime options = Some (-1) -> now <= later ->
     get later key (set now key v options c) = VUndefined) /\
  (forall v options later,
     staleTime options = Some 10000 -> now <= later <= now + 10000 ->
     get later key (set now key v options c) = v).
Proof.
  split; [|split; [|split; [|split]]].
  - intros Hk. unfold get. now rewrite Hk.
  - intros entry Hk. split.
    + intros Hfresh. unfold get, isStale. rewrite Hk.
      destruct (Z.ltb_spec (entry_staleTime entry) (now - timestamp entry));
        [lia|done].
    + intros Hstale. split; [|split; [|split]].
      * unfold get, isStale. rewrite Hk.
        destruct (Z.ltb_spec (entry_staleTime entry) (now - timestamp entry));
          [done|lia].
      * unfold has. apply bool_decide_eq_true. eauto.
      * unfold keys. apply elem_of_dom. eauto.
      * unfold size.
        destruct (decide (base.size (cache c) = 0%nat)) as [Hz|Hz]; [|lia].
        apply map_size_empty_inv in Hz. rewrite Hz in Hk.
        now rewrite lookup_empty in Hk.
  - intros segments <-. unfold invalidate. simpl. apply lookup_delete_eq.
  - intros v options later Hst Hle. rewrite get_set_same, Hst. simpl.
    destruct (Z.ltb_spec (-1) (later - now)); [done|lia].
  - intros v options later Hst Hle. rewrite get_set_same, Hst. simpl.
    destruct (Z.ltb_spec 10000 (later - now)); [lia|done].
Qed.

Lemma C4_get_masks_stale_entries_witness :
  let old := set 0 "users:1" (VStr "ada") noOptions CacheManager.new in
  get 6000 "users:1" old = VUndefined /\
  has "users:1" old = true /\
  cache (invalidate ["users"; "1"] old) !! "users:1" = None /\
  get 1000 "k"
    (set 1000 "k" (VNum 7)
       (mkQueryOptions None None (Some (-1)) None None None None None None
          None None None) old) = VUndefined /\
  get 1000 "k"
    (set 1000 "k" (VNum 7)
       (mkQueryOptions None None (Some 10000) None None None None None None
          None None None) old) = VNum 7.
Proof.
  intros old.
  pose proof (C4_get_masks_stale_entries old 6000 "users:1")
    as (_ & Hentry & Hinv & _ & _).
  pose proof (C4_get_masks_stale_entries old 1000 "k")
    as (_ & _ & _ & Hneg & Hpos).
  destruct (Hentry (mkEntry (VStr "ada") 0 5000 300000)) as [_ Hstale];
    [reflexivity|].
  destruct Hstale as (Hget & Hhas & _); [reflexivity|].
  split; [|split; [|split; [|split]]].
  - exact Hget.
  - exact Hhas.
  - apply Hinv. reflexivity.
  - apply Hneg; [reflexivity | lia].
  - apply Hpos; [reflexivity | lia].
Defined.



End CacheManagerFacts.

Section InvalidateRelatedFacts.
Import Types JsString CacheManager.

Lemma foldl_dropKey_cache ks c key :
  cache (foldl dropKey c ks) !! key =
  if decide (key ∈ ks) then None else cache c !! key.
Proof.
  revert c. induction ks as [|k ks IH]; intros c; cbn [foldl].
  - case_decide as Hin; [|done]. now apply not_elem_of_nil in Hin.
  - rewrite IH. cbn [dropKey cache meta]. destruct (decide (key = k)) as [->|Hne].
    + rewrite lookup_delete_eq.
      destruct (decide (k ∈ ks)), (decide (k ∈ k :: ks)) as [|Hout];
        try done; exfalso; apply Hout; left.
    + rewrite lookup_delete_ne by done.
      destruct (decide (key ∈ ks)) as [Hin|Hin],
               (decide (key ∈ k :: ks)) as [Hin'|Hin']; try done.
      * exfalso. apply Hin'. now right.
      * exfalso. apply elem_of_cons in Hin' as [Heq|Hin']; done.
Qed.

Lemma foldl_dropKey_meta ks c key :
  meta (foldl dropKey c ks) !! key =
  if decide (key ∈ ks) then None else meta c !! key.
Proof.
  revert c. induction ks as [|k ks IH]; intros c; cbn [foldl].
  - case_decide as Hin; [|done]. now apply not_elem_of_nil in Hin.
  - rewrite IH. cbn [dropKey cache meta]. destruct (decide (key = k)) as [->|Hne].
    + rewrite lookup_delete_eq.
      destruct (decide (k ∈ ks)), (decide (k ∈ k :: ks)) as [|Hout];
        try done; exfalso; apply Hout; left.
    + rewrite lookup_delete_ne by done.
      destruct (decide (key ∈ ks)) as [Hin|Hin],
               (decide (key ∈ k :: ks)) as [Hin'|Hin']; try done.
      * exfalso. apply Hin'. now right.
      * exfalso. apply elem_of_cons in Hin' as [Heq|Hin']; done.
Qed.

Lemma elem_of_relatedKeys url' c key :
  key ∈ relatedKeys url' c <->
  exists m, meta c !! key = Some m /\ isRelated url' (url m) (meta_params m) = true.
Proof.
  unfold relatedKeys. rewrite list_elem_of_fmap. split.
  - intros [[k m] [-> Hin]]. apply elem_of_map_to_list in Hin.
    apply map_lookup_filter_Some in Hin as [Hm Hrel]. eauto.
  - intros (m & Hm & Hrel). exists (key, m). split; [done|].
    apply elem_of_map_to_list. apply map_lookup_filter_Some. done.
Qed.

Lemma invalidateRelated_cache url' c key :
  cache (invalidateRelated url' c) !! key =
  match meta c !! key with
  | Some m => if isRelated url' (url m) (meta_params m) then None
              else cache c !! key
  | None => cache c !! key
  end.
Proof.
  unfold invalidateRelated. rewrite foldl_dropKey_cache.
  case_decide as Hin.
  - apply elem_of_relatedKeys in Hin as (m & -> & ->). done.
  - destruct (meta c !! key) as [m|] eqn:Hm; [|done].
    destruct (isRelated url' (url m) (meta_params m)) eqn:Hrel; [|done].
    exfalso. apply Hin, elem_of_relatedKeys. eauto.
Qed.

(** C3, as the code has it. [invalidateRelated url] removes exactly the
    entries whose registered metadata [isRelated] judges related to
    [url], and an entry registered under [url] itself is never one of
    them. With metadata registered under the endpoints /users/123 and
    /users/123/posts, [invalidateRelated "/users/123"] removes the entry
    of /users/123/posts and keeps the one of /users/123; with /users/123
    and /orders/55 it removes nothing. With metadata registered under
    the templates /users/:id and /users/:id/posts (id 123), it removes
    the entry of /users/:id and keeps the one of /users/:id/posts; with
    /users/:id and /orders/:id it removes the former only. In every
    case the entry of the orders endpoint is untouched. *)
Theorem C3_invalidateRelated_removes_related_only :
  (forall (c : t) (url' key : string),
     cache (invalidateRelated url' c) !! key =
     match meta c !! key with
     | Some m => if isRelated url' (url m) (meta_params m) then None
                 else cache c !! key
     | None => cache c !! key
     end) /\
  (forall (url' : string) (params' : Params), isRelated url' url' params' = false) /\
  (let after := invalidateRelated "/users/123" usersAndPosts in
   cache after !! "/users/123/posts" = None /\
   cache after !! "/users/123" = cache usersAndPosts !! "/users/123" /\
   get 0 "/users/123" after = VStr "user") /\
  (let after := invalidateRelated "/users/123" usersAndOrders in
   cache after !! "/orders/55" = cache usersAndOrders !! "/orders/55" /\
   cache after !! "/users/123" = cache usersAndOrders !! "/users/123" /\
   get 0 "/orders/55" after = VStr "order") /\
  (let after := invalidateRelated "/users/123" usersAndPostsByTemplate in
   cache after !! "/users/:id|id:123" = None /\
   cache after !! "/users/:id/posts|id:123"
   = cache usersAndPostsByTemplate !! "/users/:id/posts|id:123" /\
   get 0 "/users/:id/posts|id:123" after = VStr "posts") /\
  (let after := invalidateRelated "/users/123" usersAndOrdersByTemplate in
   cache after !! "/users/:id|id:123" = None /\
   cache after !! "/orders/:id|id:55"
   = cache usersAndOrdersByTemplate !! "/orders/:id|id:55" /\
   get 0 "/orders/:id|id:55" after = VStr "order").
Proof.
  split; [|split; [|split; [|split; [|split]]]].
  - intros c url' key. apply invalidateRelated_cache.
  - intros url' params'. unfold isRelated. now rewrite String.eqb_refl.
  - cbv zeta. unfold get. rewrite !invalidateRelated_cache. vm_compute. auto.
  - cbv zeta. unfold get. rewrite !invalidateRelated_cache. vm_compute. auto.
  - cbv zeta. unfold get. rewrite !invalidateRelated_cache. vm_compute. auto.
  - cbv zeta. unfold get. rewrite !invalidateRelated_cache. vm_compute. auto.
Qed.

(** The statement of C3 fails on the code. Whether the two entries were
    only written with [set] (which records no metadata) or also had
    their metadata registered with [setMeta], under their endpoints or
    under their templates, [invalidateRelated "/users/123"] does not
    remove both the entry of /users/123 and the one of
    /users/123/posts. *)
Lemma C3_counterexample :
  let written :=
    set 0 "/users/123/posts" (VStr "posts") noOptions
      (set 0 "/users/123" (VStr "user") noOptions CacheManager.new) in
  ~ (cache (invalidateRelated "/users/123" written) !! "/users/123" = None /\
     cache (invalidateRelated "/users/123" written) !! "/users/123/posts" = None) /\
  ~ (cache (invalidateRelated "/users/123" usersAndPosts) !! "/users/123" = None /\
     cache (invalidateRelated "/users/123" usersAndPosts) !! "/users/123/posts"
     = None) /\
  ~ (cache (invalidateRelated "/users/123" usersAndPostsByTemplate)
       !! "/users/:id|id:123" = None /\
     cache (invalidateRelated "/users/123" usersAndPostsByTemplate)
       !! "/users/:id/posts|id:123" = None).
Proof.
  cbv zeta. rewrite !invalidateRelated_cache.
  split; [|split].
  - intros [Hgone _]; vm_compute in Hgone; discriminate.
  - intros [Hgone _]; vm_compute in Hgone; discriminate.
  - intros [_ Hgone]; vm_compute in Hgone; discriminate.
Qed.

End InvalidateRelatedFacts.

Section GenerateCacheKeyFacts.
Import Types JsString UrlParser.

Section SortFacts.
Context {A : Type} (compareFn : A -> A -> Z).

Hypothesis before_total :
  forall x y, before compareFn x y \/ before compareFn y x.
Hypothesis before_trans :
  forall x y z, before compareFn x y -> before compareFn y z -> before compareFn x z.





End SortFacts.







End GenerateCacheKeyFacts.

Section RequestHandlerFacts.
Import Types JsString Errors RequestHandler.

Lemma withRetryFrom_all_fail {T} (fn : Z -> Completion T) (errors : Z -> JsError)
    (attempts : Z) (remaining : nat) (i : Z) :
  (0 < remaining)%nat ->
  attempts = i + Z.of_nat remaining ->
  (forall j, i <= j < attempts -> fn j = Throw (errors j)) ->
  withRetryFrom fn attempts remaining i
  = (Throw (errors (attempts - 1)), linearBackoff 1000 remaining i).
Proof.
  revert i. induction remaining as [|remaining IH]; intros i Hpos Hlen Hfail.
  - lia.
  - cbn [withRetryFrom]. rewrite Hfail by lia.
    destruct remaining as [|remaining'].
    + replace (i =? attempts - 1) with true by lia.
      replace (attempts - 1) with i by lia. reflexivity.
    + replace (i =? attempts - 1) with false by lia.
      rewrite (IH (i + 1)) by (try lia; intros j Hj; apply Hfail; lia).
      reflexivity.
Qed.

Lemma withRetry_all_fail {T} (fn : Z -> Completion T) (errors : Z -> JsError)
    (n : Z) :
  1 <= n ->
  (forall i, 0 <= i < n -> fn i = Throw (errors i)) ->
  withRetry fn (Some (inl n))
  = (Throw (errors (n - 1)), linearBackoff 1000 (Z.to_nat n) 0).
Proof.
  intros Hn Hfail. unfold withRetry. cbn [attemptsOf].
  apply withRetryFrom_all_fail; [lia | lia | exact Hfail].
Qed.

(** C6. Under the default policy (no [retry] option) a request whose
    attempts all fail is attempted three times, the wait after the
    failed attempt [i] being [i * 1000] ms (so 0 ms, then 1000 ms), and
    the error of the last attempt is thrown as it is by [withRetry]; and
    [execute] passes it on unchanged unless it is an abort error, which
    it turns into the timeout error. For an explicit limit [n] the same
    holds with [n] attempts. *)
Theorem C6_retry_policy (config' : ClientConfig) (options : QueryOptions)
    (responses : Z -> Completion Response) (errors : Z -> JsError) :
  retry options = None ->
  (forall i, 0 <= i < 3 -> responses i = Throw (errors i)) ->
  withRetry responses None
  = (Throw (errors 2), [Attempt 0; Delay 0; Attempt 1; Delay 1000; Attempt 2]) /\
  linearBackoff 1000 3 0 = [Attempt 0; Delay 0; Attempt 1; Delay 1000; Attempt 2] /\
  (err_name (errors 2) ≠ "AbortError" ->
   execute config' options responses
   = (Throw (errors 2), [Attempt 0; Delay 0; Attempt 1; Delay 1000; Attempt 2])) /\
  (err_name (errors 2) = "AbortError" ->
   execute config' options responses
   = (Throw (TimeoutError
               (default 0 (match retryDelay options with
                           | Some t => Some t
                           | None => timeout config'
                           end))),
      [Attempt 0; Delay 0; Attempt 1; Delay 1000; Attempt 2])) /\
  (forall (T : Type) (fn : Z -> Completion T) (n : Z),
     1 <= n ->
     (forall i, 0 <= i < n -> fn i = Throw (errors i)) ->
     withRetry fn (Some (inl n))
     = (Throw (errors (n - 1)), linearBackoff 1000 (Z.to_nat n) 0)).
Proof.
  intros Hretry Hfail.
  assert (withRetry responses None
          = (Throw (errors 2),
             [Attempt 0; Delay 0; Attempt 1; Delay 1000; Attempt 2])) as Hthree.
  { unfold withRetry. cbn [attemptsOf].
    rewrite (withRetryFrom_all_fail responses errors 3 (Z.to_nat 3) 0);
      [reflexivity | simpl; lia | reflexivity | exact Hfail]. }
  split; [exact Hthree|]. split; [reflexivity|]. split; [|split].
  - intros Hname. unfold execute. rewrite Hretry, Hthree.
    apply String.eqb_neq in Hname. now rewrite Hname.
  - intros Hname. unfold execute. rewrite Hretry, Hthree.
    apply String.eqb_eq in Hname. now rewrite Hname.
  - intros T fn n. apply withRetry_all_fail.
Qed.

Lemma C6_retry_policy_witness :
  let refused := mkError "TypeError" None "fetch failed" in
  execute (mkClientConfig (Some "https://api.com") None) noOptions
    (fun _ => Throw refused)
  = (Throw refused, [Attempt 0; Delay 0; Attempt 1; Delay 1000; Attempt 2]).
Proof.
  intros refused.
  apply (C6_retry_policy (mkClientConfig (Some "https://api.com") None)
           noOptions (fun _ => Throw refused) (fun _ => refused)).
  - reflexivity.
  - intros i _. reflexivity.
  - vm_compute. discriminate.
Defined.

Section Dedup.
Context `{Collation}.

Lemma fetch_joins rt urlTemplate options request :
  pendingRequests (handler rt) !! buildKey urlTemplate options = Some request ->
  fetch urlTemplate options rt = (request, rt).
Proof.
  intros Hp. unfold fetch. now rewrite Hp.
Qed.

Lemma fetch_pending rt urlTemplate options :
  pendingRequests (handler (fetch urlTemplate options rt).2)
    !! buildKey urlTemplate options
  = Some (fetch urlTemplate options rt).1.
Proof.
  unfold fetch.
  destruct (pendingRequests (handler rt) !! buildKey urlTemplate options)
    as [request|] eqn:Hp; simpl.
  - exact Hp.
  - apply lookup_insert_eq.
Qed.

Lemma withRetry_first_answer {T} (fn : Z -> Completion T) retry' r :
  0 < attemptsOf retry' -> fn 0 = Return r ->
  withRetry fn retry' = (Return r, [Attempt 0]).
Proof.
  intros Hpos Hr. unfold withRetry.
  destruct (Z.to_nat (attemptsOf retry')) as [|remaining] eqn:Hn; [lia|].
  cbn [withRetryFrom]. now rewrite Hr.
Qed.

(** C5. A call of [fetch] for a key that has a request in flight returns
    the promise of that request and changes nothing: no call of the
    global [fetch] is made. Hence, of two calls in a row for the same
    key, the second receives the promise of the first; when the key was
    free and the policy allows an attempt, the two calls together make
    exactly one call of the global [fetch]; and once the request
    settles, both callers receive the same completion, the one of the
    single [execute], and the key is free again. *)
Theorem C5_fetch_dedups (rt : Runtime) (urlTemplate : string)
    (options : QueryOptions) :
  let key := buildKey urlTemplate options in
  (forall request,
     pendingRequests (handler rt) !! key = Some request ->
     fetch urlTemplate options rt = (request, rt)) /\
  (let first := (fetch urlTemplate options rt).1 in
   let rt1 := (fetch urlTemplate options rt).2 in
   let second := (fetch urlTemplate options rt1).1 in
   let rt2 := (fetch urlTemplate options rt1).2 in
   second = first /\ rt2 = rt1 /\
   (pendingRequests (handler rt) !! key = None ->
    0 < attemptsOf (retry options) ->
    fetchCalls rt2 = fetchCalls rt ++ [mkCall first urlTemplate 0] /\
    forall responses,
      let settled := settle first responses rt2 in
      let completion := (execute (config (handler rt)) options responses).1 in
      received first settled = Some completion /\
      received second settled = Some completion /\
      pendingRequests (handler settled) !! key = None /\
      (forall r, responses 0 = Return r ->
         fetchCalls settled = fetchCalls rt ++ [mkCall first urlTemplate 0]))).
Proof.
  intros key. split.
  - intros request. apply fetch_joins.
  - cbv zeta.
    pose proof (fetch_pending rt urlTemplate options) as Hpending.
    rewrite (fetch_joins _ _ _ _ Hpending). cbn [fst snd].
    split; [reflexivity|]. split; [reflexivity|].
    intros Hfree Hpos. unfold fetch. fold key. rewrite Hfree. cbn [fst snd].
    replace (0 <? attemptsOf (retry options)) with true by lia.
    split; [reflexivity|].
    intros responses. unfold settle, received. cbn [requests handler config fetchCalls].
    rewrite lookup_insert_eq.
    destruct (execute (config (handler rt)) options responses)
      as [completion events] eqn:Hexec.
    cbn [requests handler pendingRequests fetchCalls fst].
    rewrite lookup_insert_eq. cbn [req_settled].
    split; [reflexivity|]. split; [reflexivity|]. split.
    + apply lookup_delete_eq.
    + intros r Hr. unfold execute in Hexec.
      rewrite (withRetry_first_answer responses (retry options) r Hpos Hr) in Hexec.
      injection Hexec as _ <-. cbn [laterCalls omap]. simpl.
      now rewrite app_nil_r.
Qed.

End Dedup.

Lemma C5_fetch_dedups_witness :
  let answer := mkResponse true 200 "OK" (Return (VStr "value")) in
  let rt := start (mkClientConfig (Some "https://api.com") None) in
  let first := (@fetch codeUnitCollation "/test" noOptions rt).1 in
  let rt1 := (@fetch codeUnitCollation "/test" noOptions rt).2 in
  let second := (@fetch codeUnitCollation "/test" noOptions rt1).1 in
  let rt2 := (@fetch codeUnitCollation "/test" noOptions rt1).2 in
  let settled := settle first (fun _ => Return answer) rt2 in
  second = first /\
  fetchCalls settled = [mkCall first "/test" 0] /\
  received first settled = Some (Return (VStr "value")) /\
  received second settled = Some (Return (VStr "value")).
Proof.
  cbv zeta.
  destruct (@C5_fetch_dedups codeUnitCollation
              (start (mkClientConfig (Some "https://api.com") None))
              "/test" noOptions) as [_ (Hsame & _ & Hfresh)].
  destruct Hfresh as [_ Hsettle]; [reflexivity | reflexivity |].
  destruct (Hsettle (fun _ => Return (mkResponse true 200 "OK" (Return (VStr "value")))))
    as (Hfirst & Hsecond & _ & Hcalls).
  split; [exact Hsame|]. split; [|split].
  - apply (Hcalls (mkResponse true 200 "OK" (Return (VStr "value")))). reflexivity.
  - exact Hfirst.
  - exact Hsecond.
Defined.

End RequestHandlerFacts.

Section QueryFacts.
Import Types Controller QueryInstance.

(** C8. [fetchSafe] never throws. When [fetch] fulfils with [d],
    [fetchSafe] returns the data [d] with a null error; when [fetch]
    rejects with [e], [fetchSafe] returns null data with the very error
    [e]; in both cases it leaves the world as [fetch] does. *)
Theorem C8_fetchSafe_never_throws (network : Network) (w : World t) :
  (forall d w', fetch network w = (Return d, w') ->
     fetchSafe network w = (Return (mkSafe d None), w')) /\
  (forall e w', fetch network w = (Throw e, w') ->
     fetchSafe network w = (Return (mkSafe VNull (Some e)), w')) /\
  (exists r w', fetchSafe network w = (Return r, w')).
Proof.
  unfold fetchSafe, try_catch, mbind, M_bind, bind, mret, M_ret, ret.
  split; [|split].
  - intros d w' ->. reflexivity.
  - intros e w' ->. reflexivity.
  - destruct (fetch network w) as [[d|e] w']; eauto.
Qed.

Lemma C8_fetchSafe_never_throws_witness :
  let api := Kernel.mk (mkClientConfig (Some "https://api.com") None) None [] in
  let w := mkWorld 0 api (@new codeUnitCollation "/test" noOptions) [] in
  let busy := (transition StateMachine.loading VUndefined None w).2 in
  let answered :=
    mkNetwork 20 (Return (mkResponse true 200 "OK" (Return (VStr "value")))) in
  let refused := mkNetwork 20 (Throw (Error_ "Network error")) in
  fetchSafe answered w
  = (Return (mkSafe (VStr "value") None), (fetch answered w).2) /\
  fetchSafe refused w
  = (Return (mkSafe VNull (Some (Error_ "Network error"))), (fetch refused w).2) /\
  fetchSafe answered busy
  = (Return (mkSafe VNull
               (Some (StateMachine.InvalidTransition StateMachine.loading
                        StateMachine.loading))),
     (fetch answered busy).2).
Proof.
  cbv zeta. split; [|split].
  - apply C8_fetchSafe_never_throws. vm_compute. reflexivity.
  - apply C8_fetchSafe_never_throws. vm_compute. reflexivity.
  - apply C8_fetchSafe_never_throws. vm_compute. reflexivity.
Defined.

End QueryFacts.

Section MutationFacts.
Import Types Controller MutationInstance.

(** C1, as the code behaves. A mutation whose [optimistic] function sets
    the cache key [K] to [X] and whose network write is rejected with [e]
    rejects with [e], and afterwards the cache is the one the optimistic
    function left: [K] holds [X], written at the time of the call. The
    failure path emits the rollback event, for which no handler is
    registered, so the value that [K] had before (or its absence) is not
    restored. *)
Theorem C1_failed_mutation_keeps_optimistic_value
    (config' : ClientConfig) (c0 : CacheManager.t) (urlTemplate' K : string)
    (X variables : value) (e : JsError) (now elapsed : Z) :
  let options' :=
    mkMutationOptions None None (Some (optimisticSet K X)) None None None
      None None in
  let w := mkWorld now (Kernel.withCache config' c0) (new urlTemplate' options') [] in
  let result := mutate (mkNetwork elapsed (Throw e)) variables w in
  result.1 = Throw e /\
  Kernel.cache (kernel result.2) = Some (CacheManager.set now K X noOptions c0) /\
  (exists c1,
     Kernel.cache (kernel result.2) = Some c1 /\
     CacheManager.cache c1 !! K = Some (CacheManager.mkEntry X now 5000 300000)) /\
  Kernel.MutationRollback VNull ∈ Kernel.emitted (kernel result.2).
Proof.
  cbv zeta. split; [reflexivity|]. split; [reflexivity|]. split.
  - eexists. split; [reflexivity|]. apply lookup_insert_eq.
  - cbn. apply elem_of_cons. right. apply elem_of_cons. left. reflexivity.
Qed.

(** The failing input of C1: the key /users/1 holds "old", the
    optimistic function sets it to "new", the network write is rejected.
    After [mutate] has rejected, reading the key gives "new". *)
Example C1_failing_input :
  let c0 := CacheManager.set 0 "/users/1" (VStr "old") noOptions CacheManager.new in
  let options' :=
    mkMutationOptions None None (Some (optimisticSet "/users/1" (VStr "new")))
      None None None None None in
  let w :=
    mkWorld 10 (Kernel.withCache (mkClientConfig None None) c0)
      (new "/users/1" options') [] in
  let result := mutate (mkNetwork 20 (Throw (Error_ "Network error"))) (VNull) w in
  CacheManager.get 10 "/users/1" c0 = VStr "old" /\
  result.1 = Throw (Error_ "Network error") /\
  (exists c1, Kernel.cache (kernel result.2) = Some c1 /\
              CacheManager.get (clock result.2) "/users/1" c1 = VStr "new").
Proof.
  cbv zeta. split; [reflexivity|]. split; [reflexivity|].
  eexists. split; reflexivity.
Qed.

End MutationFacts.

(** * Further properties of the state machine *)

Section StateMachineMore.
Import StateMachine.

(** X1. The last recorded snapshot mirrors the fields of the instance; with
    an empty history the instance is in its initial condition. So a
    reader of [getHistory().at(-1)] sees what [getState], [getData] and
    [getError] return. *)
Theorem history_last_mirrors_fields (sm : t) :
  Reachable sm ->
  match last (history sm) with
  | Some snap =>
      snap_state snap = state sm /\ snap_data snap = data sm /\
      snap_error snap = error_ sm
  | None => state sm = idle /\ data sm = VUndefined /\ error_ sm = None
  end.
Proof.
  induction 1 as [|c sm Hr IH].
  - simpl. auto.
  - destruct c as [now to d e| | |]; simpl; try exact IH; auto.
    destruct (isValidTransition (state sm) to) eqn:Hv.
    + rewrite transition_valid by exact Hv. simpl. rewrite last_snoc. simpl. auto.
    + rewrite transition_invalid by exact Hv. exact IH.
Qed.

Lemma history_last_mirrors_fields_witness :
  let sm := call (CTransition 7 success (VStr "rows") None)
              (call (CTransition 5 loading VUndefined None) new) in
  match last (history sm) with
  | Some snap =>
      snap_state snap = state sm /\ snap_data snap = data sm /\
      snap_error snap = error_ sm
  | None => state sm = idle /\ data sm = VUndefined /\ error_ sm = None
  end.
Proof.
  apply history_last_mirrors_fields.
  apply Reachable_call, Reachable_call, Reachable_new.
Defined.

Lemma Reachable_listeners_NoDup sm : Reachable sm -> NoDup (listeners sm).
Proof.
  induction 1 as [|c sm Hr IH].
  - constructor.
  - destruct c as [now to d e| |l|l]; simpl; try exact IH.
    + destruct (isValidTransition (state sm) to) eqn:Hv.
      * rewrite transition_valid by exact Hv. exact IH.
      * rewrite transition_invalid by exact Hv. exact IH.
    + case_decide as Hin; [exact IH|].
      apply NoDup_app. split; [exact IH|]. split.
      * intros x Hx Hx'. apply list_elem_of_singleton in Hx'. subst. contradiction.
      * apply NoDup_singleton.
    + now apply NoDup_filter.
Qed.

(** X2. A transition that succeeds notifies every subscribed listener
    exactly once, with the snapshot it returns, and keeps the set of
    listeners; a listener subscribed twice is still notified once. *)
Theorem transition_notifies_each_listener_once (sm sm' : t) (now : Z)
    (to : State) (d : value) (e : option JsError) (snap : StateSnapshot)
    (deliveries : list (nat * StateSnapshot)) :
  Reachable sm ->
  transition now to d e sm = (Return (snap, deliveries), sm') ->
  NoDup deliveries.*1 /\
  (forall l s, (l, s) ∈ deliveries <-> l ∈ listeners sm /\ s = snap) /\
  listeners sm' = listeners sm /\
  last (history sm') = Some snap.
Proof.
  intros Hr Ht.
  destruct (isValidTransition (state sm) to) eqn:Hv.
  - rewrite transition_valid in Ht by exact Hv. simpl in Ht.
    injection Ht as <- <- <-. simpl. unfold notify. simpl.
    split; [|split; [|split]].
    + rewrite <- list_fmap_compose.
      assert (fst ∘ (λ l, (l, mkSnapshot to (coalesce d (data sm)) e now)) <$>
              listeners sm = listeners sm) as ->.
      { clear. induction (listeners sm) as [|x xs IH]; simpl; [done|]. now f_equal. }
      now apply Reachable_listeners_NoDup.
    + intros l s. rewrite list_elem_of_fmap. split.
      * intros (l' & Heq & Hin). injection Heq as -> ->. done.
      * intros [Hin ->]. eauto.
    + reflexivity.
    + apply last_snoc.
  - rewrite transition_invalid in Ht by exact Hv. discriminate.
Qed.

Lemma transition_notifies_each_listener_once_witness :
  let sm := call (CSubscribe 4) (call (CSubscribe 9) (call (CSubscribe 4) new)) in
  let snap := mkSnapshot loading VUndefined None 3 in
  NoDup [(4%nat, snap); (9%nat, snap)].*1 /\
  (forall l s, (l, s) ∈ [(4%nat, snap); (9%nat, snap)] <->
               l ∈ listeners sm /\ s = snap) /\
  listeners (transition 3 loading VUndefined None sm).2 = listeners sm /\
  last (history (transition 3 loading VUndefined None sm).2) = Some snap.
Proof.
  cbv zeta.
  apply (transition_notifies_each_listener_once _ _ 3 loading VUndefined None).
  - apply Reachable_call, Reachable_call, Reachable_call, Reachable_new.
  - reflexivity.
Defined.

(** X3. Only [reset] clears the data: whatever transitions are attempted and
    whatever listeners come and go, data that is neither null nor
    undefined stays so. In particular an error transition, which passes
    no data, keeps the last data. *)
Theorem data_survives_transitions (sm : t) (calls : list Call) :
  Forall (fun c => c ≠ CReset) calls ->
  nullish (data sm) = false ->
  nullish (data (foldl (fun sm c => call c sm) sm calls)) = false.
Proof.
  intros Hcalls. revert sm.
  induction Hcalls as [|c calls Hc _ IH]; intros sm Hdata; simpl.
  - exact Hdata.
  - apply IH. destruct c as [now to d e| | |]; simpl; try exact Hdata; try done.
    destruct (isValidTransition (state sm) to) eqn:Hv.
    + rewrite transition_valid by exact Hv. simpl. unfold coalesce.
      destruct (nullish d) eqn:Hd; [exact Hdata | exact Hd].
    + rewrite transition_invalid by exact Hv. exact Hdata.
Qed.

Lemma data_survives_transitions_witness :
  let sm := call (CTransition 2 success (VStr "rows") None)
              (call (CTransition 1 loading VUndefined None) new) in
  nullish
    (data
       (foldl (fun sm c => call c sm) sm
          [CTransition 3 loading VUndefined None;
           CTransition 4 error VUndefined (Some (Error_ "down"));
           CTransition 5 idle VNull None])) = false.
Proof.
  apply data_survives_transitions.
  - repeat constructor; discriminate.
  - reflexivity.
Defined.

End StateMachineMore.

(** * Properties of the event bus *)

Section EventBusFacts.
Import EventBus.




(** After the function that [on(event, h)] returned has run, [h] is not
    called for [event] any more, even if it had been registered for it
    before that [on]; all other registrations are as they were. *)
Theorem unsubscribe_removes_handler (bus : t) (event : string) (h : nat) :
  let after := off event h (on event h bus) in
  (forall (data : value), h ∉ (emit event data after).*1) /\
  (forall (data : value) event' h',
     event' ≠ event \/ h' ≠ h ->
     ((h', data) ∈ emit event' data after <-> (h', data) ∈ emit event' data bus)).
Proof.
  cbv zeta. unfold off, on. cbn [listeners]. rewrite lookup_insert_eq. cbn [listeners].
  rewrite insert_insert_eq.
  set (hs := default [] (listeners bus !! event)).
  assert (filter (λ x, x ≠ h) (if decide (h ∈ hs) then hs else hs ++ [h])
          = filter (λ x, x ≠ h) hs) as ->.
  { case_decide; [done|]. rewrite filter_app.
    rewrite filter_cons_False by (intros Hne; now apply Hne).
    rewrite filter_nil. apply app_nil_r. }
  split.
  - intros data. unfold emit. cbn [listeners]. rewrite lookup_insert_eq.
    rewrite <- list_fmap_compose. intros Hin.
    apply list_elem_of_fmap in Hin as (x & Hx & Hin). simpl in Hx. subst x.
    apply list_elem_of_filter in Hin as [Hne _]. now apply Hne.
  - intros data event' h' Hother. unfold emit. cbn [listeners].
    destruct (decide (event' = event)) as [->|Hne].
    + rewrite lookup_insert_eq. destruct Hother as [?|Hh]; [done|].
      subst hs. destruct (listeners bus !! event) as [hs|]; simpl; [|done].
      split; intros Hin.
      * apply list_elem_of_fmap in Hin as (x & Heq & Hin).
        injection Heq as Heq. subst x.
        apply list_elem_of_filter in Hin as [_ Hin].
        apply list_elem_of_fmap. eauto.
      * apply list_elem_of_fmap in Hin as (x & Heq & Hin).
        injection Heq as Heq. subst x.
        apply list_elem_of_fmap. exists h'. split; [done|].
        now apply list_elem_of_filter.
    + now rewrite lookup_insert_ne by done.
Qed.

Lemma unsubscribe_removes_handler_witness :
  let bus := on "test" 7 (on "test" 3 new) in
  let after := off "test" 7 (on "test" 7 bus) in
  (3%nat, VNull) ∈ emit "test" VNull after.
Proof.
  cbv zeta.
  apply (proj2 (unsubscribe_removes_handler (on "test" 7 (on "test" 3 new)) "test" 7)
           VNull "test" 3%nat).
  - right. discriminate.
  - vm_compute. apply list_elem_of_here.
Defined.

End EventBusFacts.

(** * Properties of the retry helper *)

Section RetryFacts.
Import Retry.

Lemma retryFrom_all_fail {T} (fn : Z -> Completion T) (errors : Z -> JsError)
    (attempts delay : Z) (remaining : nat) (i : Z) (lastError : option JsError) :
  (0 < remaining)%nat ->
  attempts = i + Z.of_nat remaining ->
  (forall j, i <= j < attempts -> fn j = Throw (errors j)) ->
  retryFrom fn attempts delay remaining i lastError
  = (Thrown (errors (attempts - 1)), schedule delay remaining i).
Proof.
  revert i lastError.
  induction remaining as [|remaining IH]; intros i lastError Hpos Hlen Hfail; [lia|].
  cbn [retryFrom]. rewrite Hfail by lia.
  destruct remaining as [|remaining'].
  - cbn [retryFrom]. replace (i <? attempts - 1) with false by lia.
    replace (attempts - 1) with i by lia. reflexivity.
  - rewrite (IH (i + 1)) by (try lia; intros j Hj; apply Hfail; lia).
    replace (i <? attempts - 1) with true by lia. reflexivity.
Qed.

Lemma retryFrom_first_success {T} (fn : Z -> Completion T) (r : T)
    (attempts delay : Z) (remaining before : nat) (i : Z)
    (lastError : option JsError) :
  (before < remaining)%nat ->
  attempts = i + Z.of_nat remaining ->
  (forall j, i <= j < i + Z.of_nat before -> exists e, fn j = Throw e) ->
  fn (i + Z.of_nat before) = Return r ->
  retryFrom fn attempts delay remaining i lastError
  = (Returned r, schedule delay (S before) i).
Proof.
  revert i lastError remaining.
  induction before as [|before IH]; intros i lastError remaining Hlt Hlen Hfail Hok.
  - destruct remaining as [|remaining]; [lia|]. cbn [retryFrom].
    replace (i + Z.of_nat 0) with i in Hok by lia. now rewrite Hok.
  - destruct remaining as [|remaining]; [lia|]. cbn [retryFrom].
    destruct (Hfail i) as [e He]; [lia|]. rewrite He.
    rewrite (IH (i + 1) (Some e) remaining);
      [ | lia | lia | intros j Hj; apply Hfail; lia
        | replace (i + 1 + Z.of_nat before) with (i + Z.of_nat (S before)) by lia;
          exact Hok ].
    replace (i <? attempts - 1) with true by lia. reflexivity.
Qed.

(** X5. [retry] makes at most [attempts] attempts, waits [delay * (i + 1)]
    after the failed attempt [i] when another attempt follows, returns
    what the first attempt that succeeds returns, and throws the error
    of the last attempt when all fail. With no attempt allowed it throws
    [null] without a call. *)
Theorem retry_outcomes {T} (fn : Z -> Completion T) (attempts delay : Z) :
  (forall errors,
     1 <= attempts ->
     (forall i, 0 <= i < attempts -> fn i = Throw (errors i)) ->
     retry fn (Some attempts) (Some delay)
     = (Thrown (errors (attempts - 1)), schedule delay (Z.to_nat attempts) 0)) /\
  (forall (before : nat) r,
     Z.of_nat before < attempts ->
     (forall i, 0 <= i < Z.of_nat before -> exists e, fn i = Throw e) ->
     fn (Z.of_nat before) = Return r ->
     retry fn (Some attempts) (Some delay)
     = (Returned r, schedule delay (S before) 0)) /\
  (attempts <= 0 -> retry fn (Some attempts) (Some delay) = (ThrownNull, [])).
Proof.
  unfold retry, default, id. split; [|split].
  - intros errors Hn Hfail. apply retryFrom_all_fail; [lia | lia | exact Hfail].
  - intros before r Hlt Hfail Hok.
    apply retryFrom_first_success; [lia | lia | exact Hfail | exact Hok].
  - intros Hn. replace (Z.to_nat attempts) with 0%nat by lia. reflexivity.
Qed.

Lemma retry_outcomes_witness :
  let down := Error_ "down" in
  retry (fun _ : Z => @Throw nat down) (Some 3) (Some 1000)
  = (Thrown down, [Attempt 0; Delay 1000; Attempt 1; Delay 2000; Attempt 2]) /\
  retry (fun i : Z => if i =? 1 then Return 5%nat else Throw down) (Some 3) (Some 200)
  = (Returned 5%nat, [Attempt 0; Delay 200; Attempt 1]) /\
  retry (fun _ : Z => @Throw nat down) (Some 0) (Some 1000) = (ThrownNull, []).
Proof.
  intros down. split; [|split].
  - apply (proj1 (retry_outcomes (fun _ : Z => @Throw nat down) 3 1000)
             (fun _ => down)); [lia | reflexivity].
  - apply (proj1 (proj2 (retry_outcomes
             (fun i : Z => if i =? 1 then Return 5%nat else Throw down) 3 200))
             1%nat 5%nat).
    + simpl. lia.
    + intros i Hi. exists down. replace i with 0 by lia. reflexivity.
    + reflexivity.
  - apply (proj2 (proj2 (retry_outcomes (fun _ : Z => @Throw nat down) 0 1000))). lia.
Defined.

End RetryFacts.

(** * Properties of deep equality *)

Section DeepEqualFacts.
Import Types DeepEqual.

Lemma value_nested_ind (P : value -> Prop) :
  P VUndefined -> P VNull -> (forall b, P (VBool b)) -> (forall n, P (VNum n)) ->
  (forall s, P (VStr s)) ->
  (forall xs, Forall P xs -> P (VArr xs)) ->
  (forall fa, Forall (fun kv => P kv.2) fa -> P (VObj fa)) ->
  forall v, P v.
Proof.
  intros Hu Hn Hb Hz Hs Ha Ho. fix IH 1. intros [ | |b|n|s|xs|fa].
  - exact Hu.
  - exact Hn.
  - apply Hb.
  - apply Hz.
  - apply Hs.
  - apply Ha. induction xs as [|x xs IHxs]; constructor; [apply IH | exact IHxs].
  - apply Ho. induction fa as [|[k v] fa IHfa]; constructor; [apply IH | exact IHfa].
Qed.

Lemma deepEqual_arr xs ys :
  deepEqual (VArr xs) (VArr ys)
  = Nat.eqb (length xs) (length ys)
    && forallb (fun xy => deepEqual xy.1 xy.2) (zip xs ys).
Proof.
  cbn [deepEqual]. f_equal. revert ys.
  induction xs as [|x xs IH]; intros [|y ys]; simpl; try reflexivity.
  now rewrite IH.
Qed.

Lemma deepEqual_obj fa fb :
  deepEqual (VObj fa) (VObj fb)
  = Nat.eqb (length fa) (length fb)
    && forallb (fun kv => deepEqual kv.2 (default VUndefined (prop kv.1 fb))) fa.
Proof.
  cbn [deepEqual]. f_equal.
  induction fa as [|[k v] fa IH]; simpl; [reflexivity|]. now rewrite IH.
Qed.

Lemma distinctNames_arr xs :
  distinctNames (VArr xs) = forallb distinctNames xs.
Proof.
  cbn [distinctNames]. induction xs as [|x xs IH]; simpl; [reflexivity|].
  now rewrite IH.
Qed.

Lemma distinctNames_obj fa :
  distinctNames (VObj fa)
  = bool_decide (NoDup fa.*1) && forallb (fun kv => distinctNames kv.2) fa.
Proof.
  cbn [distinctNames]. f_equal.
  induction fa as [|[k v] fa IH]; simpl; [reflexivity|]. now rewrite IH.
Qed.



Lemma prop_elem_of {V} (o : list (string * V)) k v :
  NoDup o.*1 -> (k, v) ∈ o -> prop k o = Some v.
Proof.
  induction o as [|[k' v'] o IH]; simpl; intros Hnd Hin.
  - now apply not_elem_of_nil in Hin.
  - apply NoDup_cons in Hnd as [Hk Hnd].
    apply elem_of_cons in Hin as [[= -> ->]|Hin].
    + now rewrite String.eqb_refl.
    + destruct (String.eqb_spec k' k) as [->|Hne]; [|now apply IH].
      exfalso. apply Hk. apply list_elem_of_fmap. exists (k, v). done.
Qed.



Lemma forallb_elem_of {A} (f : A -> bool) (l : list A) :
  forallb f l = true <-> forall x, x ∈ l -> f x = true.
Proof.
  rewrite forallb_forall. split; intros H x Hx; apply H; now apply list_elem_of_In.
Qed.

Lemma deepEqual_same (v : value) :
  distinctNames v = true -> deepEqual v v = true.
Proof.
  induction v as [ | |b|n|s|xs IH|fa IH] using value_nested_ind.
  - done.
  - done.
  - intros _. apply Bool.eqb_reflx.
  - intros _. apply Z.eqb_refl.
  - intros _. apply String.eqb_refl.
  - rewrite distinctNames_arr. intros Hd.
    rewrite deepEqual_arr, Nat.eqb_refl. simpl.
    induction IH as [|x xs Hx _ IHxs]; simpl; [done|].
    simpl in Hd. apply andb_true_iff in Hd as [Hdx Hd].
    rewrite Hx by done. now apply IHxs.
  - rewrite distinctNames_obj. intros Hd. apply andb_true_iff in Hd as [Hnd Hd].
    apply bool_decide_eq_true in Hnd.
    rewrite deepEqual_obj, Nat.eqb_refl. simpl.
    apply forallb_elem_of. intros [k v] Hin. simpl.
    rewrite (prop_elem_of fa k v Hnd Hin). simpl.
    rewrite Forall_forall in IH. apply (IH (k, v) Hin).
    rewrite forallb_elem_of in Hd. apply (Hd (k, v) Hin).
Qed.

(** X6. [deepEqual] holds between a value and itself. *)
Theorem deepEqual_refl (v : value) :
  distinctNames v = true -> deepEqual v v = true.
Proof.
  exact (deepEqual_same v).
Qed.

Lemma deepEqual_refl_witness :
  let v := VObj [("id", VNum 1); ("tags", VArr [VStr "a"; VNull]);
                 ("meta", VObj [("seen", VUndefined)])] in
  deepEqual v v = true.
Proof.
  apply deepEqual_refl. reflexivity.
Defined.

(** X7. The order in which two objects list their properties does not
    matter to [deepEqual]. *)
Theorem deepEqual_ignores_property_order (fa fb : list (string * value)) :
  distinctNames (VObj fa) = true ->
  fa ≡ₚ fb ->
  deepEqual (VObj fa) (VObj fb) = true.
Proof.
  rewrite distinctNames_obj. intros Hd Hperm.
  apply andb_true_iff in Hd as [Hnd Hd]. apply bool_decide_eq_true in Hnd.
  rewrite deepEqual_obj. rewrite (Permutation_length Hperm), Nat.eqb_refl. simpl.
  apply forallb_elem_of. intros [k v] Hin. simpl.
  assert (prop k fb = Some v) as ->.
  { apply prop_elem_of; [now rewrite <- Hperm | now rewrite <- Hperm]. }
  simpl. apply deepEqual_same. rewrite forallb_elem_of in Hd. apply (Hd (k, v) Hin).
Qed.

Lemma deepEqual_ignores_property_order_witness :
  deepEqual (VObj [("a", VNum 1); ("b", VStr "x")])
            (VObj [("b", VStr "x"); ("a", VNum 1)]) = true.
Proof.
  apply deepEqual_ignores_property_order.
  - reflexivity.
  - apply Permutation_swap.
Defined.







End DeepEqualFacts.

(** * Properties of the URL builders *)

Section UrlFacts.
Import Types JsString UrlParser.

Lemma string_app_cons (x : ascii) (a b : string) :
  String x a +:+ b = String x (a +:+ b).
Proof. reflexivity. Qed.

Lemma string_app_nil_l (b : string) : "" +:+ b = b.
Proof. reflexivity. Qed.

Lemma string_app_assoc (a b c : string) : (a +:+ b) +:+ c = a +:+ (b +:+ c).
Proof.
  induction a as [|x a IH]; [reflexivity|].
  rewrite !string_app_cons. now f_equal.
Qed.

Lemma string_app_nil_r (a : string) : a +:+ "" = a.
Proof.
  induction a as [|x a IH]; [reflexivity|]. rewrite string_app_cons. now f_equal.
Qed.

Lemma countChar_app c a b :
  countChar c (a +:+ b) = (countChar c a + countChar c b)%nat.
Proof.
  induction a as [|d a IH]; [reflexivity|].
  rewrite string_app_cons. cbn [countChar]. rewrite IH. lia.
Qed.

Lemma encodeChar_alphabet (c : ascii) :
  forallb (fun e => isUnreserved e || Ascii.eqb e "%"%char)
    (list_ascii_of_string (encodeChar c)) = true.
Proof.
  destruct c as [[] [] [] [] [] [] [] []]; vm_compute; reflexivity.
Qed.

Lemma countChar_outside_alphabet (s : string) (d : ascii) :
  forallb (fun e => isUnreserved e || Ascii.eqb e "%"%char)
    (list_ascii_of_string s) = true ->
  isUnreserved d = false -> d ≠ "%"%char -> countChar d s = 0%nat.
Proof.
  intros Hs Hd Hp. induction s as [|e s IH]; [reflexivity|].
  cbn [list_ascii_of_string forallb] in Hs. apply andb_true_iff in Hs as [He Hs].
  cbn [countChar]. rewrite IH by exact Hs.
  destruct (Ascii.eqb_spec e d) as [->|Hne]; [|reflexivity].
  rewrite Hd in He. simpl in He. apply Ascii.eqb_eq in He. contradiction.
Qed.

Lemma encodeChar_safe (c d : ascii) :
  isUnreserved d = false -> d ≠ "%"%char -> countChar d (encodeChar c) = 0%nat.
Proof.
  apply countChar_outside_alphabet, encodeChar_alphabet.
Qed.

Lemma encodeURIComponent_safe (s : string) (d : ascii) :
  isUnreserved d = false -> d ≠ "%"%char ->
  countChar d (encodeURIComponent s) = 0%nat.
Proof.
  intros Hd Hp. induction s as [|c s IH]; [reflexivity|].
  cbn [encodeURIComponent].
  rewrite countChar_app, IH, encodeChar_safe by done. reflexivity.
Qed.

Lemma join_cons_cons (sep p q : string) (rest : list string) :
  join sep (p :: q :: rest) = p +:+ sep +:+ join sep (q :: rest).
Proof. reflexivity. Qed.

Lemma countChar_join_entries (d : ascii) (searchParams : Params) :
  isUnreserved d = false -> d ≠ "%"%char ->
  countChar d
    (join "&"
       (map (fun '(k, v) =>
               encodeURIComponent k +:+ "=" +:+
               encodeURIComponent (ParamValue_to_string v))
          searchParams))
  = ((if Ascii.eqb "="%char d then length searchParams else 0)
     + (if Ascii.eqb "&"%char d then pred (length searchParams) else 0))%nat.
Proof.
  intros Hd Hp.
  induction searchParams as [|[k v] sp IH].
  { cbn [map join countChar length pred].
    destruct (Ascii.eqb "="%char d), (Ascii.eqb "&"%char d); reflexivity. }
  assert (countChar d (encodeURIComponent k +:+ "=" +:+
                       encodeURIComponent (ParamValue_to_string v))
          = if Ascii.eqb "="%char d then 1 else 0)%nat as Hentry.
  { rewrite !countChar_app, !encodeURIComponent_safe by done.
    cbn [countChar]. destruct (Ascii.eqb "="%char d); reflexivity. }
  destruct sp as [|[k' v'] sp'].
  - cbn [map join length pred]. rewrite Hentry.
    destruct (Ascii.eqb "="%char d), (Ascii.eqb "&"%char d); reflexivity.
  - cbn [map] in IH |- *. rewrite join_cons_cons.
    rewrite countChar_app, Hentry, countChar_app, IH.
    cbn [length pred countChar].
    destruct (Ascii.eqb "="%char d), (Ascii.eqb "&"%char d); lia.
Qed.

(** X10. The query string that [buildSearchParams] builds for at least one
    entry is a question mark followed by exactly one [name=value] pair
    per entry: it holds as many equals signs as entries and one
    ampersand fewer, and no other separator of a URL, whatever the names
    and the values contain. *)
Theorem buildSearchParams_structure (searchParams : Params) :
  searchParams ≠ [] ->
  exists query,
    buildSearchParams searchParams = "?" +:+ query /\
    countChar "="%char query = length searchParams /\
    countChar "&"%char query = pred (length searchParams) /\
    countChar "?"%char query = 0%nat /\
    countChar "#"%char query = 0%nat /\
    countChar "/"%char query = 0%nat /\
    countChar " "%char query = 0%nat.
Proof.
  intros Hne. unfold buildSearchParams.
  set (query := join "&" _).
  assert (countChar "="%char query = length searchParams) as Heq.
  { unfold query. rewrite countChar_join_entries by (reflexivity || discriminate).
    simpl. lia. }
  exists query. split; [|split; [exact Heq|]].
  - destruct (String.eqb_spec query "") as [Hq|Hq]; [|reflexivity].
    rewrite Hq in Heq. destruct searchParams; [done | discriminate].
  - unfold query.
    rewrite !countChar_join_entries by (reflexivity || discriminate).
    simpl. repeat split; lia.
Qed.

Lemma buildSearchParams_structure_witness :
  exists query,
    buildSearchParams [("q", PStr "a&b=c d"); ("page", PNum 2)] = "?" +:+ query /\
    countChar "="%char query = 2%nat /\
    countChar "&"%char query = 1%nat /\
    countChar "?"%char query = 0%nat /\
    countChar "#"%char query = 0%nat /\
    countChar "/"%char query = 0%nat /\
    countChar " "%char query = 0%nat.
Proof.
  apply (buildSearchParams_structure [("q", PStr "a&b=c d"); ("page", PNum 2)]).
  discriminate.
Defined.

Lemma afterPrefix_app (p s : string) : afterPrefix p (p +:+ s) = Some s.
Proof.
  induction p as [|c p IH]; [reflexivity|].
  rewrite string_app_cons. cbn [afterPrefix]. now rewrite Ascii.eqb_refl.
Qed.

Lemma afterPrefix_Some (p s r : string) : afterPrefix p s = Some r -> s = p +:+ r.
Proof.
  revert s. induction p as [|c p IH]; intros s; cbn [afterPrefix].
  - now intros [= ->].
  - destruct s as [|d s]; [discriminate|].
    destruct (Ascii.eqb_spec c d) as [->|]; [|discriminate].
    intros Hr. rewrite string_app_cons. f_equal. now apply IH.
Qed.

Lemma afterPrefix_prefix (p s : string) :
  String.prefix p s = true <-> is_Some (afterPrefix p s).
Proof.
  revert s. induction p as [|c p IH]; intros s; simpl.
  - split; [intros _; eexists; reflexivity | intros _; now destruct s].
  - destruct s as [|d s]; simpl.
    + split; [discriminate | intros [? [=]]].
    + destruct (ascii_dec c d) as [->|Hne].
      * rewrite Ascii.eqb_refl. apply IH.
      * apply Ascii.eqb_neq in Hne. rewrite Hne. split; [discriminate | intros [? [=]]].
Qed.

Lemma splitFirst_sound (pat s b a : string) :
  splitFirst pat s = Some (b, a) -> s = b +:+ pat +:+ a.
Proof.
  revert b. induction s as [|c s IH]; intros b; cbn [splitFirst].
  - destruct (afterPrefix pat "") as [rest|] eqn:Hp; [|discriminate].
    intros [= <- <-]. rewrite string_app_nil_l. now apply afterPrefix_Some.
  - destruct (afterPrefix pat (String c s)) as [rest|] eqn:Hp.
    + intros [= <- <-]. rewrite string_app_nil_l. now apply afterPrefix_Some.
    + destruct (splitFirst pat s) as [[b' a']|]; [|discriminate].
      intros [= <- <-]. rewrite string_app_cons. f_equal. now apply IH.
Qed.

Lemma splitFirst_absent (pat s : string) :
  includes s pat = false -> splitFirst pat s = None.
Proof.
  induction s as [|c s IH]; cbn [includes splitFirst]; intros Hin.
  - destruct (afterPrefix pat "") eqn:Hp; [|reflexivity].
    assert (String.prefix pat "" = true) by (apply afterPrefix_prefix; eauto).
    congruence.
  - apply orb_false_iff in Hin as [Hpre Hin].
    destruct (afterPrefix pat (String c s)) eqn:Hp.
    + assert (String.prefix pat (String c s) = true)
        by (apply afterPrefix_prefix; eauto).
      congruence.
    + now rewrite IH.
Qed.

Lemma splitFirst_here (pat s rest : string) :
  afterPrefix pat s = Some rest -> splitFirst pat s = Some ("", rest).
Proof.
  intros Hp. destruct s; cbn [splitFirst]; now rewrite Hp.
Qed.

Lemma splitFirst_after_colon_free (key pre post : string) :
  countChar colon pre = 0%nat ->
  splitFirst (":" +:+ key) (pre +:+ ":" +:+ key +:+ post) = Some (pre, post).
Proof.
  intros Hpre. induction pre as [|c pre IH].
  - rewrite string_app_nil_l. apply splitFirst_here.
    change (":" +:+ key +:+ post) with ((":" +:+ key) +:+ post).
    apply afterPrefix_app.
  - rewrite (string_app_cons c pre). cbn [countChar] in Hpre.
    destruct (Ascii.eqb_spec c colon) as [->|Hne]; [discriminate|].
    cbn [splitFirst].
    change (":" +:+ key) with (String colon key) at 1. cbn [afterPrefix].
    apply Ascii.eqb_neq in Hne. rewrite Ascii.eqb_sym, Hne.
    now rewrite IH.
Qed.

Lemma getSubstitution_plain (matched before after repl : string) :
  countChar dollar repl = 0%nat ->
  getSubstitution matched before after repl = repl.
Proof.
  induction repl as [|c repl IH]; [reflexivity|]. cbn [countChar getSubstitution].
  destruct (Ascii.eqb c dollar); [discriminate|]. intros Hr. f_equal. now apply IH.
Qed.

Lemma replace_absent (s pat repl : string) :
  includes s pat = false -> replace s pat repl = s.
Proof.
  intros Hin. unfold replace. now rewrite splitFirst_absent.
Qed.

(** X11. [buildURL] puts the value in the place of the first occurrence of
    the placeholder only, and only literally when the value holds no
    dollar sign: it leaves alone a template that lacks the placeholders,
    and a value made of a dollar sign and an ampersand leaves the
    template as it is. *)
Theorem buildURL_substitution :
  (forall (key pre post : string) (v : ParamValue),
     countChar colon pre = 0%nat ->
     countChar dollar (ParamValue_to_string v) = 0%nat ->
     buildURL (pre +:+ ":" +:+ key +:+ post) [(key, v)]
     = pre +:+ ParamValue_to_string v +:+ post) /\
  (forall (template : string) (params : Params),
     (forall k v, (k, v) ∈ params -> includes template (":" +:+ k) = false) ->
     buildURL template params = template) /\
  (forall (template key : string),
     buildURL template [(key, PStr "$&")] = template).
Proof.
  split; [|split].
  - intros key pre post v Hpre Hv. unfold buildURL. cbn [foldl]. cbv beta iota.
    unfold replace.
    rewrite (splitFirst_after_colon_free key pre post Hpre).
    now rewrite getSubstitution_plain.
  - intros template params. unfold buildURL.
    induction params as [|[k v] params IH]; intros Hall; [reflexivity|].
    cbn [foldl]. cbv beta iota.
    rewrite replace_absent by (apply (Hall k v); left).
    apply IH. intros k' v' Hin. apply (Hall k' v'). now right.
  - intros template key. unfold buildURL. cbn [foldl ParamValue_to_string].
    cbv beta iota. unfold replace. destruct (splitFirst (":" +:+ key) template) as [[b a]|] eqn:Hs;
      [|reflexivity].
    apply splitFirst_sound in Hs. rewrite Hs.
    change (getSubstitution (":" +:+ key) b a "$&") with ((":" +:+ key) +:+ "").
    now rewrite string_app_nil_r.
Qed.

Lemma buildURL_substitution_witness :
  buildURL "/users/:id/posts/:id" [("id", PNum 7)] = "/users/7/posts/:id" /\
  buildURL "/users" [("id", PNum 7)] = "/users".
Proof.
  destruct buildURL_substitution as (Hfirst & Habsent & _). split.
  - apply (Hfirst "id" "/users/" "/posts/:id" (PNum 7)); reflexivity.
  - apply (Habsent "/users" [("id", PNum 7)]). intros k v Hin.
    apply list_elem_of_singleton in Hin as [= -> ->]. reflexivity.
Defined.

Lemma string_length_app (a b : string) :
  String.length (a +:+ b) = (String.length a + String.length b)%nat.
Proof.
  induction a as [|c a IH]; [reflexivity|].
  rewrite string_app_cons. cbn [String.length]. now rewrite IH.
Qed.

Lemma setOf_acc (l acc : list string) :
  NoDup acc ->
  let r := foldl (fun acc x => if decide (x ∈ acc) then acc else acc ++ [x]) acc l in
  NoDup r /\ forall x, x ∈ r <-> x ∈ acc \/ x ∈ l.
Proof.
  revert acc. induction l as [|y l IH]; intros acc Hnd; cbn [foldl].
  - split; [exact Hnd|]. intros x. rewrite elem_of_nil. tauto.
  - case_decide as Hin.
    + destruct (IH acc Hnd) as [Hr Hmem]. split; [exact Hr|].
      intros x. rewrite Hmem, elem_of_cons. split; [tauto|].
      intros [?|[->|?]]; tauto.
    + assert (NoDup (acc ++ [y])) as Hnd'.
      { apply NoDup_app. split; [exact Hnd|]. split; [|apply NoDup_singleton].
        intros x Hx Hx'. apply list_elem_of_singleton in Hx'. now subst. }
      destruct (IH (acc ++ [y]) Hnd') as [Hr Hmem]. split; [exact Hr|].
      intros x. rewrite Hmem, elem_of_app, list_elem_of_singleton, elem_of_cons.
      tauto.
Qed.

Lemma prefix_app (p r : string) : String.prefix p (p +:+ r) = true.
Proof. apply afterPrefix_prefix. rewrite afterPrefix_app. eauto. Qed.

Lemma includes_cons (c : ascii) (s pat : string) :
  includes s pat = true -> includes (String c s) pat = true.
Proof. intros H. cbn [includes]. rewrite H. apply orb_true_r. Qed.

Lemma includes_prefix (s pat : string) :
  String.prefix pat s = true -> includes s pat = true.
Proof.
  intros H. destruct s; cbn [includes]; [exact H|]. now rewrite H.
Qed.

Lemma identMatches_occur (s : string) :
  (forall acc name,
     name ∈ identMatches (Some acc) s ->
     (exists p rest, s = p +:+ rest /\ name = acc +:+ p)
     \/ includes s (":" +:+ name) = true) /\
  (forall name,
     name ∈ identMatches None s -> includes s (":" +:+ name) = true).
Proof.
  induction s as [|c s [IHsome IHnone]].
  - split.
    + intros acc name Hin. cbn [identMatches] in Hin.
      apply list_elem_of_singleton in Hin as ->. left. exists "", "".
      split; [reflexivity | now rewrite string_app_nil_r].
    + intros name Hin. now apply not_elem_of_nil in Hin.
  - assert (forall name,
              name ∈ identMatches
                       (if Ascii.eqb c colon && startsIdent s then Some "" else None) s ->
              includes (String c s) (":" +:+ name) = true) as Hnext.
    { intros name Hin.
      destruct (Ascii.eqb c colon && startsIdent s) eqn:Hc.
      - apply andb_true_iff in Hc as [Hc _]. apply Ascii.eqb_eq in Hc. subst c.
        destruct (IHsome "" name Hin) as [(p & rest & -> & ->)|Hinc].
        + rewrite string_app_nil_l. apply includes_prefix.
          change (String colon (p +:+ rest)) with ((":" +:+ p) +:+ rest).
          apply prefix_app.
        + now apply includes_cons.
      - apply includes_cons. now apply IHnone. }
    split.
    + intros acc name Hin. cbn [identMatches] in Hin.
      destruct (isIdentChar c).
      * destruct (IHsome _ name Hin) as [(p & rest & -> & ->)|Hinc].
        -- left. exists (String c p), rest. split; [reflexivity|].
           now rewrite string_app_assoc.
        -- right. now apply includes_cons.
      * apply elem_of_cons in Hin as [->|Hin].
        -- left. exists "", (String c s).
           split; [reflexivity | now rewrite string_app_nil_r].
        -- right. now apply Hnext.
    + intros name Hin. cbn [identMatches] in Hin. now apply Hnext.
Qed.

(** X12. The names that [parseURLTemplate] reports are distinct, and each of
    them occurs in the template behind a colon, so that [buildURL] has a
    placeholder to fill for it. *)
Theorem parseURLTemplate_names_occur (template name : string) :
  name ∈ parsed_params (parseURLTemplate template) ->
  includes template (":" +:+ name) = true /\
  NoDup (parsed_params (parseURLTemplate template)) /\
  buildURL template [(name, PStr "")] ≠ template.
Proof.
  cbn [parseURLTemplate parsed_params]. unfold setOf.
  destruct (setOf_acc (identMatches None template) [] (NoDup_nil_2)) as [Hnd Hmem].
  intros Hin. apply Hmem in Hin as [Hin|Hin]; [now apply not_elem_of_nil in Hin|].
  apply (proj2 (identMatches_occur template)) in Hin.
  split; [exact Hin|]. split; [exact Hnd|].
  unfold buildURL. cbn [foldl ParamValue_to_string]. cbv beta iota. unfold replace.
  destruct (splitFirst (":" +:+ name) template) as [[b a]|] eqn:Hs.
  - apply splitFirst_sound in Hs. cbn [getSubstitution]. rewrite string_app_nil_l.
    intros Heq. rewrite Hs in Heq. apply (f_equal String.length) in Heq.
    rewrite !string_length_app in Heq. cbn [String.length] in Heq. lia.
  - exfalso. clear Hnd Hmem.
    assert (forall s, includes s (":" +:+ name) = true ->
                      splitFirst (":" +:+ name) s <> None) as Hfound.
    { clear. induction s as [|c s IH]; cbn [includes splitFirst]; intros Hin.
      - apply afterPrefix_prefix in Hin as [r ->]. discriminate.
      - destruct (afterPrefix (":" +:+ name) (String c s)) eqn:Hp; [discriminate|].
        apply orb_true_iff in Hin as [Hin|Hin].
        + apply afterPrefix_prefix in Hin as [r Hr]. congruence.
        + specialize (IH Hin). destruct (splitFirst (":" +:+ name) s) as [[? ?]|];
            [discriminate | contradiction]. }
    now apply (Hfound template).
Qed.

Lemma parseURLTemplate_names_occur_witness :
  includes "/users/:id/posts/:postId" ":postId" = true /\
  NoDup (parsed_params (parseURLTemplate "/users/:id/posts/:postId")) /\
  buildURL "/users/:id/posts/:postId" [("postId", PStr "")]
  ≠ "/users/:id/posts/:postId".
Proof.
  apply (parseURLTemplate_names_occur "/users/:id/posts/:postId" "postId").
  vm_compute. apply list_elem_of_In. right. left. reflexivity.
Defined.



(** X14. [buildFullURL] joins the base and the path without doubling the
    slash: a base written with one slash at its end gives the URL of the
    base written without it. With no base, or an empty one, the URL is
    the path with its query string. *)
Theorem buildFullURL_base (base template : string) (params : Params)
    (searchParams : option Params) :
  let path := buildFullURL None template params searchParams in
  buildFullURL (Some (base +:+ "/")) template params searchParams = base +:+ path /\
  buildFullURL (Some "") template params searchParams = path /\
  (forall c, c ≠ slash ->
     buildFullURL (Some (base +:+ String c "")) template params searchParams
     = (base +:+ String c "") +:+ path).
Proof.
  cbv zeta. unfold buildFullURL.
  assert (forall b c, trimTrailingSlash (b +:+ String c "")
                      = if Ascii.eqb c slash then b else b +:+ String c "") as Htrim.
  { intros b c. induction b as [|d b IH].
    - rewrite string_app_nil_l. cbn [trimTrailingSlash].
      destruct (Ascii.eqb c slash); reflexivity.
    - rewrite !string_app_cons. cbn [trimTrailingSlash].
      destruct (b +:+ String c "") eqn:Hb.
      + destruct b; discriminate.
      + rewrite IH. destruct (Ascii.eqb c slash); reflexivity. }
  assert (forall b c, String.eqb (b +:+ String c "") "" = false) as Hne.
  { intros b c. apply String.eqb_neq. destruct b; discriminate. }
  split; [|split].
  - change "/" with (String slash ""). rewrite Hne, Htrim.
    now rewrite Ascii.eqb_refl.
  - reflexivity.
  - intros c Hc. rewrite Hne, Htrim. apply Ascii.eqb_neq in Hc. now rewrite Hc.
Qed.

Lemma buildFullURL_base_witness :
  buildFullURL (Some "https://api.com") "/users" [] (Some [("page", PNum 1)])
  = "https://api.com" +:+ buildFullURL None "/users" [] (Some [("page", PNum 1)]).
Proof.
  apply (proj2 (proj2 (buildFullURL_base "https://api.co" "/users" []
                         (Some [("page", PNum 1)]))) "m"%char).
  discriminate.
Defined.

End UrlFacts.

(** * Further properties of the cache manager *)

Section CacheManagerMore.
Import Types JsString CacheManager.

Lemma splitStars_star_free (p : string) :
  countChar "*"%char p = 0%nat -> splitStars p = [p].
Proof.
  induction p as [|c p IH]; [reflexivity|]. cbn [countChar splitStars].
  destruct (Ascii.eqb c "*"%char); [discriminate|]. intros Hp.
  now rewrite IH.
Qed.

Lemma splitStars_trailing_star (p : string) :
  countChar "*"%char p = 0%nat -> splitStars (p +:+ "*") = [p; ""].
Proof.
  induction p as [|c p IH]; [reflexivity|].
  rewrite string_app_cons. cbn [countChar splitStars].
  destruct (Ascii.eqb c "*"%char); [discriminate|]. intros Hp.
  now rewrite IH.
Qed.

Lemma matchSegments_single (p s : string) :
  matchSegments [p] s = String.prefix p s.
Proof.
  cbn [matchSegments]. destruct (afterPrefix p s) eqn:Hp.
  - symmetry. apply afterPrefix_prefix. eauto.
  - destruct (String.prefix p s) eqn:Hpre; [|reflexivity].
    apply afterPrefix_prefix in Hpre as [r Hr]. congruence.
Qed.

Lemma matchSegments_trailing (p s : string) :
  matchSegments [p; ""] s = String.prefix p s.
Proof.
  rewrite <- matchSegments_single. cbn [matchSegments].
  destruct (afterPrefix p s) as [u|]; [|reflexivity].
  destruct u; reflexivity.
Qed.

Lemma searchSegments_ext (segs segs' : list string) :
  (forall s, matchSegments segs s = matchSegments segs' s) ->
  forall s, searchSegments segs s = searchSegments segs' s.
Proof.
  intros Hm s. induction s as [|c s IH]; cbn [searchSegments]; rewrite Hm;
    [reflexivity | now rewrite IH].
Qed.

Lemma searchSegments_single (p s : string) :
  searchSegments [p] s = includes s p.
Proof.
  induction s as [|c s IH]; cbn [searchSegments includes];
    rewrite matchSegments_single; [apply orb_false_r | now rewrite IH].
Qed.

Lemma globTest_literal (p key : string) :
  countChar "*"%char p = 0%nat ->
  globTest p key = includes key p /\ globTest (p +:+ "*") key = includes key p.
Proof.
  intros Hp. unfold globTest.
  rewrite splitStars_star_free, splitStars_trailing_star by exact Hp.
  rewrite <- searchSegments_single. split; [reflexivity|].
  apply searchSegments_ext. intros s.
  now rewrite matchSegments_trailing, matchSegments_single.
Qed.

Lemma plainPattern_app (a b : string) :
  plainPattern (a +:+ b) = plainPattern a && plainPattern b.
Proof.
  induction a as [|c a IH]; [reflexivity|].
  rewrite string_app_cons. cbn [plainPattern]. rewrite IH. apply andb_assoc.
Qed.

Lemma invalidateString_cache (pattern : string) (c c' : t) (key : string) :
  invalidateString pattern c = Some c' ->
  cache c' !! key = if globTest pattern key then None else cache c !! key.
Proof.
  unfold invalidateString. destruct (plainPattern pattern); [|discriminate].
  intros [= <-]. rewrite foldl_dropKey_cache.
  case_decide as Hin.
  - apply list_elem_of_filter in Hin as [-> _]. reflexivity.
  - destruct (globTest pattern key) eqn:Hg; [|reflexivity].
    destruct (cache c !! key) as [entry|] eqn:Hk; [|reflexivity].
    exfalso. apply Hin. apply list_elem_of_filter. split; [exact Hg|].
    apply list_elem_of_fmap. exists (key, entry). split; [reflexivity|].
    now apply elem_of_map_to_list.
Qed.

(** X15. A string pattern without a star is not a key but a fragment:
    [invalidate] removes every entry whose key contains it anywhere and
    keeps the others, and a star at the end of the pattern changes
    nothing to that. *)
Theorem invalidate_literal_pattern_is_substring (pattern : string) (c : t) :
  plainPattern pattern = true ->
  countChar "*"%char pattern = 0%nat ->
  exists c',
    invalidateString pattern c = Some c' /\
    invalidateString (pattern +:+ "*") c = Some c' /\
    forall key,
      cache c' !! key = if includes key pattern then None else cache c !! key.
Proof.
  intros Hplain Hstar.
  assert (forall key, globTest (pattern +:+ "*") key = globTest pattern key) as Hsame.
  { intros key. destruct (globTest_literal pattern key Hstar) as [-> ->]. reflexivity. }
  unfold invalidateString at 1 2. rewrite plainPattern_app, Hplain. cbn [plainPattern andb].
  change (negb (isRegExpSpecial "*") && true) with true. cbv iota.
  eexists. split; [reflexivity|]. split.
  - do 2 f_equal. apply list_filter_iff. intros key. now rewrite Hsame.
  - intros key.
    rewrite (invalidateString_cache pattern c _ key)
      by (unfold invalidateString; now rewrite Hplain).
    now destruct (globTest_literal pattern key Hstar) as [-> _].
Qed.

Lemma invalidate_literal_pattern_is_substring_witness :
  let c := set 0 "/posts" VNull noOptions
             (set 0 "/teams/1/users/7" VNull noOptions
                (set 0 "/users/123" VNull noOptions CacheManager.new)) in
  exists c',
    invalidateString "/users" c = Some c' /\
    invalidateString ("/users" +:+ "*") c = Some c' /\
    forall key,
      cache c' !! key = if includes key "/users" then None else cache c !! key.
Proof.
  cbv zeta. apply invalidate_literal_pattern_is_substring; reflexivity.
Defined.

(** X16. [update] replaces the data and nothing else: the entry keeps the
    time of its last [set], so the new data is read within the old
    window only, and an entry that has gone stale stays unreadable after
    an update that succeeds. *)
Theorem update_keeps_staleness (c : t) (key : string)
    (updater : value -> Completion value) (entry : CacheEntry) (d : value) :
  cache c !! key = Some entry ->
  updater (data entry) = Return d ->
  (update key updater c).1 = Return tt /\
  forall now,
    get now key (update key updater c).2
    = if isStale now entry then VUndefined else d.
Proof.
  intros Hk Hd. unfold update. rewrite Hk, Hd. cbn [fst snd]. split; [reflexivity|].
  intros now. unfold get, isStale. cbn [cache]. rewrite lookup_insert_eq. reflexivity.
Qed.

Lemma update_keeps_staleness_witness :
  let c := set 0 "key1" (VNum 1) noOptions CacheManager.new in
  let c' := (update "key1" (fun _ => Return (VNum 2)) c).2 in
  (update "key1" (fun _ => Return (VNum 2)) c).1 = Return tt /\
  get 6000 "key1" c' = VUndefined /\ get 4000 "key1" c' = VNum 2.
Proof.
  cbv zeta.
  destruct (update_keeps_staleness (set 0 "key1" (VNum 1) noOptions CacheManager.new)
              "key1" (fun _ => Return (VNum 2)) (mkEntry (VNum 1) 0 5000 300000)
              (VNum 2)) as [Hret Hget]; [reflexivity | reflexivity |].
  split; [exact Hret|]. split; [apply (Hget 6000) | apply (Hget 4000)].
Defined.

(** [set] touches one key: the other keys read as before, the metadata
    is as before, and the size grows by one exactly when the key is
    new. *)
Theorem set_other_keys_and_size (c : t) (now : Z) (key : string) (v : value)
    (options : QueryOptions) :
  (forall later other, other ≠ key ->
     get later other (set now key v options c) = get later other c) /\
  has key (set now key v options c) = true /\
  size (set now key v options c) = (if has key c then size c else S (size c)) /\
  meta (set now key v options c) = meta c.
Proof.
  split; [|split; [|split]].
  - intros later other Hne. unfold get, set. cbn [cache].
    now rewrite lookup_insert_ne by done.
  - unfold has, set. cbn [cache]. apply bool_decide_eq_true.
    rewrite lookup_insert_eq. eauto.
  - unfold size, has, set. cbn [cache]. case_bool_decide as Hk.
    + now apply map_size_insert_Some.
    + apply map_size_insert_None. now apply eq_None_not_Some.
  - reflexivity.
Qed.

Lemma set_other_keys_and_size_witness :
  let c := set 0 "a" (VNum 1) noOptions CacheManager.new in
  get 10 "a" (set 5 "b" (VNum 2) noOptions c) = get 10 "a" c /\
  size (set 5 "b" (VNum 2) noOptions c) = 2%nat /\
  size (set 5 "a" (VNum 3) noOptions c) = 1%nat.
Proof.
  cbv zeta. split; [|split].
  - apply (set_other_keys_and_size _ 5 "b" (VNum 2) noOptions). discriminate.
  - apply (set_other_keys_and_size (set 0 "a" (VNum 1) noOptions CacheManager.new)
             5 "b" (VNum 2) noOptions).
  - apply (set_other_keys_and_size (set 0 "a" (VNum 1) noOptions CacheManager.new)
             5 "a" (VNum 3) noOptions).
Defined.

Lemma meta_foldl_dropKey_empty ks c : meta c = ∅ -> meta (foldl dropKey c ks) = ∅.
Proof.
  intros Hm. apply map_eq. intros key. rewrite foldl_dropKey_meta, Hm.
  rewrite lookup_empty. now case_decide.
Qed.

Lemma invalidateRelated_no_meta url' c : meta c = ∅ -> invalidateRelated url' c = c.
Proof.
  intros Hm. unfold invalidateRelated, relatedKeys.
  rewrite Hm, map_filter_empty, map_to_list_empty. reflexivity.
Qed.

(** X17. A cache that is only used through [set], [update], [invalidate],
    [invalidateRelated] and [clear] never holds relationship metadata,
    and [invalidateRelated] removes nothing from it, whatever the
    endpoint. *)
Theorem reachable_cache_has_no_metadata (c : t) :
  Reachable c ->
  meta c = ∅ /\ forall url', invalidateRelated url' c = c.
Proof.
  intros Hr. assert (meta c = ∅) as Hm.
  { induction Hr as [|k c c' Hr IH Hcall]; [reflexivity|].
    destruct k as [now key v o|key updater|pattern|pattern|url'|];
      cbn [call] in Hcall.
    - injection Hcall as <-. exact IH.
    - injection Hcall as <-. unfold update.
      destruct (cache c !! key) as [entry|]; [|exact IH].
      destruct (updater (data entry)); exact IH.
    - injection Hcall as <-. unfold invalidate. cbn [meta]. rewrite IH.
      apply delete_empty.
    - unfold invalidateString in Hcall.
      destruct (plainPattern pattern); [|discriminate].
      injection Hcall as <-. now apply meta_foldl_dropKey_empty.
    - injection Hcall as <-. now rewrite invalidateRelated_no_meta.
    - injection Hcall as <-. reflexivity. }
  split; [exact Hm|]. intros url'. now apply invalidateRelated_no_meta.
Qed.

Lemma reachable_cache_has_no_metadata_witness :
  let c := set 5 "/users/:id/posts|id:123" (VStr "posts") noOptions
             (set 0 "/users/:id|id:123" (VStr "user") noOptions CacheManager.new) in
  meta c = ∅ /\ forall url', invalidateRelated url' c = c.
Proof.
  apply reachable_cache_has_no_metadata.
  eapply (Reachable_call (CSet 5 "/users/:id/posts|id:123" (VStr "posts") noOptions));
    [|reflexivity].
  eapply (Reachable_call (CSet 0 "/users/:id|id:123" (VStr "user") noOptions));
    [|reflexivity].
  apply Reachable_new.
Defined.

Lemma invalidateRelated_meta url' c key :
  meta (invalidateRelated url' c) !! key =
  match meta c !! key with
  | Some m => if isRelated url' (url m) (meta_params m) then None else Some m
  | None => None
  end.
Proof.
  unfold invalidateRelated. rewrite foldl_dropKey_meta.
  case_decide as Hin.
  - apply elem_of_relatedKeys in Hin as (m & -> & ->). done.
  - destruct (meta c !! key) as [m|] eqn:Hm; [|done].
    destruct (isRelated url' (url m) (meta_params m)) eqn:Hrel; [|done].
    exfalso. apply Hin, elem_of_relatedKeys. eauto.
Qed.

(** [invalidateRelated] treats an entry and its metadata alike: both go
    when the metadata is judged related, both stay otherwise. So a
    second call for the same endpoint finds nothing more to remove. *)
Theorem invalidateRelated_idempotent (url' : string) (c : t) :
  invalidateRelated url' (invalidateRelated url' c) = invalidateRelated url' c /\
  forall key m,
    meta c !! key = Some m ->
    if isRelated url' (url m) (meta_params m) then
      cache (invalidateRelated url' c) !! key = None /\
      meta (invalidateRelated url' c) !! key = None
    else
      cache (invalidateRelated url' c) !! key = cache c !! key /\
      meta (invalidateRelated url' c) !! key = Some m.
Proof.
  split.
  - set (c1 := invalidateRelated url' c).
    assert (cache (invalidateRelated url' c1) = cache c1) as Hc.
    { apply map_eq. intros key. rewrite invalidateRelated_cache.
      unfold c1 at 1. rewrite invalidateRelated_meta.
      destruct (meta c !! key) as [m|]; [|reflexivity].
      destruct (isRelated url' (url m) (meta_params m)) eqn:Hrel; [reflexivity|].
      now rewrite Hrel. }
    assert (meta (invalidateRelated url' c1) = meta c1) as Hm.
    { apply map_eq. intros key. rewrite invalidateRelated_meta.
      unfold c1. rewrite invalidateRelated_meta.
      destruct (meta c !! key) as [m|]; [|reflexivity].
      destruct (isRelated url' (url m) (meta_params m)) eqn:Hrel; [reflexivity|].
      now rewrite Hrel. }
    destruct (invalidateRelated url' c1) as [cache2 meta2], c1 as [cache1 meta1].
    cbn [cache meta] in Hc, Hm. now subst.
  - intros key m Hm. rewrite invalidateRelated_cache, invalidateRelated_meta, Hm.
    destruct (isRelated url' (url m) (meta_params m)); auto.
Qed.

Lemma invalidateRelated_idempotent_witness :
  let after := invalidateRelated "/users/123" usersAndPosts in
  invalidateRelated "/users/123" after = after /\
  cache after !! "/users/123/posts" = None /\
  meta after !! "/users/123/posts" = None.
Proof.
  cbv zeta.
  destruct (invalidateRelated_idempotent "/users/123" usersAndPosts) as [Hidem Hboth].
  split; [exact Hidem|].
  apply (Hboth "/users/123/posts" (mkMeta "/users/123/posts" [("id", PStr "123")])).
  reflexivity.
Defined.

Lemma matchFollowedBy_short (lit s g : string) :
  matchFollowedBy lit s = Some g -> (String.length g <= 1)%nat.
Proof.
  induction s as [|c s IH]; cbn [matchFollowedBy].
  - destruct (afterPrefix lit "") as [[|d r]|]; try discriminate.
    + intros [= <-]. simpl. lia.
    + destruct (Ascii.eqb d slash); [discriminate|]. intros [= <-]. simpl. lia.
  - destruct (afterPrefix lit (String c s)) as [[|d r]|].
    + intros [= <-]. simpl. lia.
    + destruct (Ascii.eqb d slash); [exact IH|]. intros [= <-]. simpl. lia.
    + exact IH.
Qed.

Lemma getParamValues_short (u : string) (names : list string) (k g : string) :
  prop k (getParamValues u names) = Some g -> (String.length g <= 1)%nat.
Proof.
  unfold getParamValues. induction names as [|n names IH];
    cbn [omap list_omap]; [discriminate|].
  destruct (matchFollowedBy (":" +:+ n) u) as [g'|] eqn:Hm; [|exact IH].
  cbn [prop]. destruct (String.eqb n k); [|exact IH].
  intros [= <-]. now apply matchFollowedBy_short in Hm.
Qed.

(** X18. The identifier rule of [isRelated] compares the stored [id] with at
    most one character taken from the endpoint itself. So two endpoints
    that both hold the segment /:id/ are never judged related when the
    stored [id] is a number, a boolean or a string of two characters or
    more, be the identifiers equal or not. *)
Theorem isRelated_id_rule_never_matches (url1 url2 : string) (params2 : Params)
    (v : ParamValue) :
  includes url1 "/:id/" = true ->
  includes url2 "/:id/" = true ->
  prop "id" params2 = Some v ->
  match v with PStr s => (2 <= String.length s)%nat | _ => True end ->
  isRelated url1 url2 params2 = false.
Proof.
  intros H1 H2 Hv Hlong. unfold isRelated.
  destruct (String.eqb url1 url2); [reflexivity|].
  rewrite H1, H2, Hv. cbn [andb].
  destruct (prop "id" (getParamValues url1 (extractParams url1))) as [g|] eqn:Hg;
    [|reflexivity].
  apply getParamValues_short in Hg. destruct v as [s| |]; try reflexivity.
  cbn [strictEq]. apply String.eqb_neq. intros ->. lia.
Qed.

Lemma isRelated_id_rule_never_matches_witness :
  isRelated "/users/:id/posts" "/users/:id/comments" [("id", PStr "123")] = false.
Proof.
  apply (isRelated_id_rule_never_matches _ _ _ (PStr "123"));
    [reflexivity | reflexivity | reflexivity | simpl; lia].
Defined.

End CacheManagerMore.

(** * Further properties of the request handler *)

Section RequestHandlerMore.
Import Types JsString Errors RequestHandler.

Lemma withRetryFrom_first_success {T} (fn : Z -> Completion T) (r : T)
    (attempts : Z) (remaining before : nat) (i : Z) :
  (before < remaining)%nat ->
  attempts = i + Z.of_nat remaining ->
  (forall j, i <= j < i + Z.of_nat before -> exists e, fn j = Throw e) ->
  fn (i + Z.of_nat before) = Return r ->
  withRetryFrom fn attempts remaining i
  = (Return r, linearBackoff 1000 (S before) i).
Proof.
  revert i remaining.
  induction before as [|before IH]; intros i remaining Hlt Hlen Hfail Hok.
  - destruct remaining as [|remaining]; [lia|]. cbn [withRetryFrom].
    replace (i + Z.of_nat 0) with i in Hok by lia. now rewrite Hok.
  - destruct remaining as [|remaining]; [lia|]. cbn [withRetryFrom].
    destruct (Hfail i) as [e He]; [lia|]. rewrite He.
    replace (i =? attempts - 1) with false by lia.
    rewrite (IH (i + 1) remaining);
      [ reflexivity | lia | lia | intros j Hj; apply Hfail; lia
        | replace (i + 1 + Z.of_nat before) with (i + Z.of_nat (S before)) by lia;
          exact Hok ].
Qed.

(** X19. [withRetry] stops at the first attempt that succeeds, having waited
    [i * 1000] ms after each failed attempt [i]; a limit of zero or less
    makes no attempt and throws the error "Retry failed"; and a boolean
    [retry] option, [false] included, stands for three attempts. *)
Theorem withRetry_outcomes {T} (fn : Z -> Completion T) (retry' : option (Z + bool)) :
  (forall (before : nat) r,
     Z.of_nat before < attemptsOf retry' ->
     (forall i, 0 <= i < Z.of_nat before -> exists e, fn i = Throw e) ->
     fn (Z.of_nat before) = Return r ->
     withRetry fn retry' = (Return r, linearBackoff 1000 (S before) 0)) /\
  (attemptsOf retry' <= 0 ->
     withRetry fn retry' = (Throw (Error_ "Retry failed"), [])) /\
  (forall b, withRetry fn (Some (inr b)) = withRetry fn None).
Proof.
  split; [|split].
  - intros before r Hlt Hfail Hok. unfold withRetry.
    apply withRetryFrom_first_success; [lia | lia | exact Hfail | exact Hok].
  - intros Hn. unfold withRetry.
    replace (Z.to_nat (attemptsOf retry')) with 0%nat by lia. reflexivity.
  - reflexivity.
Qed.

Lemma withRetry_outcomes_witness :
  let down := Error_ "down" in
  withRetry (fun i : Z => if i =? 2 then Return 5%nat else Throw down)
    (Some (inr false))
  = (Return 5%nat, [Attempt 0; Delay 0; Attempt 1; Delay 1000; Attempt 2]) /\
  withRetry (fun _ : Z => Return 5%nat) (Some (inl 0))
  = (Throw (Error_ "Retry failed"), []).
Proof.
  intros down. split.
  - apply (proj1 (withRetry_outcomes
             (fun i : Z => if i =? 2 then Return 5%nat else Throw down)
             (Some (inr false))) 2%nat 5%nat).
    + simpl. lia.
    + intros i Hi. exists down.
      assert (i = 0 \/ i = 1) as [-> | ->] by lia; reflexivity.
    + reflexivity.
  - apply (proj1 (proj2 (withRetry_outcomes (fun _ : Z => Return 5%nat)
                           (Some (inl 0))))).
    simpl. lia.
Defined.

(** X20. Only a rejection of the global [fetch] is retried. Once an attempt
    is answered, [execute] makes no further attempt: a response that is
    not ok gives the network error, a null or undefined body the
    validation error, and any other body is the result. *)
Theorem execute_answered_once (config' : ClientConfig) (options : QueryOptions)
    (responses : Z -> Completion Response) (response : Response) :
  0 < attemptsOf (retry options) ->
  responses 0 = Return response ->
  (ok response = false ->
     execute config' options responses
     = (Throw (NetworkError ("HTTP " +:+ string_of_Z (status response)
                             +:+ ": " +:+ statusText response)),
        [Attempt 0])) /\
  (forall data, ok response = true -> json response = Return data ->
     execute config' options responses
     = (if nullish data
        then Throw (ValidationError "Response data cannot be null or undefined")
        else Return data,
        [Attempt 0])).
Proof.
  intros Hpos Hr. unfold execute.
  assert (withRetry responses (retry options) = (Return response, [Attempt 0])) as ->.
  { unfold withRetry.
    destruct (Z.to_nat (attemptsOf (retry options))) eqn:Hn; [lia|].
    cbn [withRetryFrom]. now rewrite Hr. }
  split.
  - intros Hok. rewrite Hok. reflexivity.
  - intros data Hok Hjson. rewrite Hok, Hjson. cbn [negb]. unfold validateData.
    destruct (nullish data); reflexivity.
Qed.

Lemma execute_answered_once_witness :
  execute (mkClientConfig None None) noOptions
    (fun _ => Return (mkResponse false 404 "Not Found" (Return VNull)))
  = (Throw (NetworkError "HTTP 404: Not Found"), [Attempt 0]) /\
  execute (mkClientConfig None None) noOptions
    (fun _ => Return (mkResponse true 200 "OK" (Return VNull)))
  = (Throw (ValidationError "Response data cannot be null or undefined"),
     [Attempt 0]).
Proof.
  split.
  - apply (execute_answered_once (mkClientConfig None None) noOptions
             (fun _ => Return (mkResponse false 404 "Not Found" (Return VNull)))
             (mkResponse false 404 "Not Found" (Return VNull)));
      reflexivity.
  - apply (proj2 (execute_answered_once (mkClientConfig None None) noOptions
             (fun _ => Return (mkResponse true 200 "OK" (Return VNull)))
             (mkResponse true 200 "OK" (Return VNull)) eq_refl eq_refl) VNull);
      reflexivity.
Defined.

Section Live.
Context `{Collation}.

Lemma Reachable_wellFormed rt : Reachable rt -> wellFormed rt.
Proof.
  induction 1 as [config'|urlTemplate options rt Hr [IHp IHr]
                 |request responses rt Hr [IHp IHr]|config' rt Hr [IHp IHr]].
  - split; intros ? ?; cbn; rewrite lookup_empty; discriminate.
  - unfold fetch.
    destruct (pendingRequests (handler rt) !! buildKey urlTemplate options)
      as [p|] eqn:Hp; cbn [snd]; [split; assumption|].
    split; cbn [handler pendingRequests requests nextPromise].
    + intros key request.
      destruct (decide (key = buildKey urlTemplate options)) as [->|Hne].
      * rewrite lookup_insert_eq. intros [= <-]. rewrite lookup_insert_eq. eauto.
      * rewrite lookup_insert_ne by done. intros Hk.
        destruct (IHp key request Hk) as (u & o & Hreq).
        rewrite lookup_insert_ne; [eauto|].
        intros <-. apply IHr in Hreq. lia.
    + intros request r.
      destruct (decide (request = nextPromise rt)) as [->|Hne]; [lia|].
      rewrite lookup_insert_ne by done. intros Hreq. apply IHr in Hreq. lia.
  - unfold settle.
    destruct (requests rt !! request) as [[key u o [done|]]|] eqn:Hreq;
      [split; assumption| |split; assumption].
    destruct (execute (config (handler rt)) o responses) as [completion events].
    split; cbn [handler pendingRequests requests nextPromise].
    + intros key' request'.
      destruct (decide (key' = key)) as [->|Hne].
      * now rewrite lookup_delete_eq.
      * rewrite lookup_delete_ne by done. intros Hk.
        destruct (IHp key' request' Hk) as (u' & o' & Hreq').
        rewrite lookup_insert_ne; [eauto|].
        intros <-. rewrite Hreq in Hreq'. injection Hreq' as -> _ _. done.
    + intros request' r.
      destruct (decide (request' = request)) as [->|Hne].
      * intros _. now apply IHr in Hreq.
      * rewrite lookup_insert_ne by done. apply IHr.
  - split; assumption.
Qed.

(** The handler keeps no result: in any runtime that calls lead to, the
    promise [fetch] returns has not settled, and it is the one pending
    for the key afterwards. *)
Theorem fetch_returns_unsettled_request (rt : Runtime) (urlTemplate : string)
    (options : QueryOptions) :
  Reachable rt ->
  let request := (fetch urlTemplate options rt).1 in
  let rt' := (fetch urlTemplate options rt).2 in
  received request rt' = None /\
  pendingRequests (handler rt') !! buildKey urlTemplate options = Some request.
Proof.
  intros Hr. cbv zeta.
  pose proof (Reachable_wellFormed _ (Reachable_fetch urlTemplate options rt Hr))
    as [Hp _].
  pose proof (fetch_pending rt urlTemplate options) as Hpending.
  split; [|exact Hpending].
  destruct (Hp _ _ Hpending) as (u & o & Hreq).
  unfold received. now rewrite Hreq.
Qed.


End Live.

Lemma fetch_returns_unsettled_request_witness :
  let answer := mkResponse true 200 "OK" (Return (VStr "value")) in
  let rt0 := start (mkClientConfig (Some "https://api.com") None) in
  let first := (@fetch codeUnitCollation "/test" noOptions rt0).1 in
  let rt1 := (@fetch codeUnitCollation "/test" noOptions rt0).2 in
  let rt := settle first (fun _ => Return answer) rt1 in
  let request := (@fetch codeUnitCollation "/test" noOptions rt).1 in
  let rt' := (@fetch codeUnitCollation "/test" noOptions rt).2 in
  received request rt' = None /\
  pendingRequests (handler rt') !! @buildKey codeUnitCollation "/test" noOptions
  = Some request.
Proof.
  cbv zeta.
  apply (@fetch_returns_unsettled_request codeUnitCollation
           (settle
              (@fetch codeUnitCollation "/test" noOptions
                 (start (mkClientConfig (Some "https://api.com") None))).1
              (fun _ => Return (mkResponse true 200 "OK" (Return (VStr "value"))))
              (@fetch codeUnitCollation "/test" noOptions
                 (start (mkClientConfig (Some "https://api.com") None))).2)
           "/test" noOptions).
  apply Reachable_settle, Reachable_fetch, Reachable_start.
Defined.


End RequestHandlerMore.

(** * Properties of the controllers *)

Section ControllerFacts.
Import Controller.
Context {I : Type} (stateMachine : I -> StateMachine.t)
        (setStateMachine : StateMachine.t -> I -> I)
        (handleStateChange : I -> StateMachine.StateSnapshot -> Kernel.Event).
Hypothesis handler_quiet :
  forall i s now c, Kernel.cacheHandlers now (handleStateChange i s) c = c.

Lemma deliver_frame (ds : list (nat * StateMachine.StateSnapshot)) (w : World I) :
  let w' := foldl (deliver handleStateChange) w ds in
  clock w' = clock w /\ this w' = this w /\
  Kernel.cache (kernel w') = Kernel.cache (kernel w) /\
  Kernel.config (kernel w') = Kernel.config (kernel w).
Proof.
  revert w. induction ds as [|d ds IH]; intros w; [done|].
  cbn [foldl]. destruct (IH (deliver handleStateChange w d)) as (Hc & Ht & Hk & Hg).
  cbv zeta. rewrite Hc, Ht, Hk, Hg. unfold deliver.
  destruct (Nat.eqb d.1 0); cbn; [|done].
  destruct (Kernel.cache (kernel w)); [|done].
  now rewrite handler_quiet.
Qed.

Lemma transition_cases (to : StateMachine.State) (d : value) (e : option JsError)
    (w : World I) :
  let sm := stateMachine (this w) in
  (StateMachine.isValidTransition (StateMachine.state sm) to = false /\
   transition stateMachine setStateMachine handleStateChange to d e w
   = (Throw (StateMachine.InvalidTransition (StateMachine.state sm) to), w)) \/
  (StateMachine.isValidTransition (StateMachine.state sm) to = true /\
   exists w',
     transition stateMachine setStateMachine handleStateChange to d e w
     = (Return tt, w') /\
     clock w' = clock w /\
     Kernel.cache (kernel w') = Kernel.cache (kernel w) /\
     Kernel.config (kernel w') = Kernel.config (kernel w) /\
     this w'
     = setStateMachine
         (StateMachine.mk to (coalesce d (StateMachine.data sm)) e
            (StateMachine.history sm
             ++ [StateMachine.mkSnapshot to (coalesce d (StateMachine.data sm)) e
                   (clock w)])
            (StateMachine.listeners sm))
         (this w)).
Proof.
  cbv zeta. unfold transition, StateMachine.transition.
  destruct (StateMachine.isValidTransition _ to); cbn [negb]; [right|left; done].
  split; [done|]. eexists. split; [reflexivity|].
  match goal with |- context [foldl _ ?w0 ?ds] =>
    destruct (deliver_frame ds w0) as (Hc & Ht & Hk & Hg) end.
  rewrite Hc, Ht, Hk, Hg. destruct e; done.
Qed.
End ControllerFacts.

Ltac open_world w :=
  let clk := fresh "clk" in let k := fresh "k" in
  let q := fresh "q" in let dl := fresh "dl" in
  destruct w as [clk k q dl];
  cbn [Controller.clock Controller.kernel Controller.this Controller.delivered] in *;
  subst.

Lemma enabled_branch {A} (o : option bool) (x y : A) :
  o <> Some false -> match o with Some false => x | _ => y end = y.
Proof. destruct o as [[|]|]; congruence. Qed.

Section QueryMore.
Import Types Controller QueryInstance.

Lemma query_handler_quiet (q : t) s now c :
  Kernel.cacheHandlers now (handleStateChange q s) c = c.
Proof. reflexivity. Qed.

Ltac step_transition :=
  unfold QueryInstance.transition;
  match goal with
  | |- context [Controller.transition stateMachine setStateMachine
                  handleStateChange ?to ?d ?e ?w] =>
      let Hv := fresh "Hv" in
      let Ht := fresh "Ht" in
      let w' := fresh "w" in
      let Hc := fresh "Hclock" in
      let Hk := fresh "Hcache" in
      let Hg := fresh "Hconfig" in
      let Hthis := fresh "Hthis" in
      destruct (transition_cases stateMachine setStateMachine handleStateChange
                  query_handler_quiet to d e w)
        as [[Hv Ht]|[Hv (w' & Ht & Hc & Hk & Hg & Hthis)]];
      rewrite Ht; clear Ht; cbn in Hv
  end.

Ltac simp_world :=
  cbv beta iota;
  cbn [clock kernel this delivered setThis options stateMachine setStateMachine
       setAbortController setHasFetched urlTemplate QueryInstance.key
       abortController hasFetched fst snd negb
       StateMachine.state StateMachine.data StateMachine.error_
       StateMachine.history StateMachine.listeners] in *.

Ltac step :=
  first
    [ step_transition;
      [ simp_world; try discriminate
      | simp_world; try discriminate;
        match goal with w : World t |- _ => open_world w end; simp_world ]
    | match goal with
      | |- context [match ?x with _ => _ end] =>
          lazymatch x with
          | context [Controller.transition] => fail
          | context [match _ with _ => _ end] => fail
          | _ => destruct x eqn:?
          end
      end; simp_world ].

Ltac open_fetch :=
  unfold fetch, applySelect, emit, await, call_opt, lift;
  unfold try_finally, try_catch, mbind, M_bind, bind, modify, gets,
    mret, M_ret, ret, throw;
  cbn [this setThis options setAbortController].


(** X22. A [fetch] on an enabled query that is already loading rejects with
    the invalid-transition error loading -> loading: no callback runs, no
    event is emitted, the cache is not read, and the abort controller it
    has just created stays in place. *)
Theorem fetch_rejects_while_loading (network : Network) (w : World t) :
  enabled (options (this w)) <> Some false ->
  isFetching (this w) = true ->
  fetch network w
  = (Throw (StateMachine.InvalidTransition StateMachine.loading StateMachine.loading),
     setThis (setAbortController true) w).
Proof.
  intros Hen Hl. apply bool_decide_eq_true in Hl. unfold StateMachine.getState in Hl.
  open_fetch. rewrite (enabled_branch _ _ _ Hen).
  step_transition.
  - cbn [this setThis stateMachine setAbortController]. now rewrite Hl.
  - cbn [this setThis stateMachine setAbortController] in Hv. rewrite Hl in Hv. discriminate.
Qed.


Lemma isUndefined_false (v : value) : v <> VUndefined -> isUndefined v = false.
Proof. destruct v; simpl; congruence. Qed.

(** X23. A fresh cache entry under the key of the query answers [fetch]: the
    outcome and the final world are the same whatever the network would
    answer, no time passes, the cache is left as it was, and the data
    returned is what [select] makes of the cached value. *)
Theorem cache_hit_skips_network (network network' : Network) (w : World t)
    (c : CacheManager.t) :
  let cached := CacheManager.get (clock w) (key (this w)) c in
  enabled (options (this w)) <> Some false ->
  Kernel.cache (kernel w) = Some c ->
  cached <> VUndefined ->
  fetch network w = fetch network' w /\
  clock (fetch network w).2 = clock w /\
  Kernel.cache (kernel (fetch network w).2) = Some c /\
  (forall d, (fetch network w).1 = Return d ->
     match select (options (this w)) with
     | Some f => f cached = Return d
     | None => d = cached
     end).
Proof.
  intros cached Hen Hk Hhit. subst cached.
  apply isUndefined_false in Hhit.
  pattern (fetch network w), (fetch network' w).
  match goal with |- ?P _ _ => set (Q := P) end.
  open_fetch. rewrite !(enabled_branch _ _ _ Hen).
  step_transition.
  { subst Q. cbv beta. cbn [fst snd clock kernel setThis]. 
    split; [reflexivity|]. split; [reflexivity|]. split; [exact Hk|]. discriminate. }
  clear Hv. destruct w as [clk k q dl]. open_world w0.
  destruct q as [u o sm ac key hf].
  simp_world. rewrite Hcache, Hk. rewrite Hhit. simp_world.
  repeat step.
  all: subst Q; cbv beta; simp_world.
  all: rewrite ?Hcache0, ?Hcache1, ?Hcache2.
  all: split; [reflexivity|]; split; [reflexivity|]; split; [congruence|].
  all: intros d Hd; try discriminate; injection Hd as <-; done.
Qed.




End QueryMore.

Section MutationMore.
Import Types Controller MutationInstance.

Lemma mutation_handler_quiet (q : t) s now c :
  Kernel.cacheHandlers now (handleStateChange q s) c = c.
Proof. reflexivity. Qed.

Ltac step_transition :=
  unfold MutationInstance.transition;
  match goal with
  | |- context [Controller.transition stateMachine setStateMachine
                  handleStateChange ?to ?d ?e ?w] =>
      let Hv := fresh "Hv" in
      let Ht := fresh "Ht" in
      let w' := fresh "w" in
      let Hc := fresh "Hclock" in
      let Hk := fresh "Hcache" in
      let Hg := fresh "Hconfig" in
      let Hthis := fresh "Hthis" in
      destruct (transition_cases stateMachine setStateMachine handleStateChange
                  mutation_handler_quiet to d e w)
        as [[Hv Ht]|[Hv (w' & Ht & Hc & Hk & Hg & Hthis)]];
      rewrite Ht; clear Ht; cbn in Hv
  end.

Ltac simp_world :=
  cbv beta iota;
  cbn [clock kernel this delivered setThis options stateMachine setStateMachine
       setOptimisticContext urlTemplate MutationInstance.key optimisticContext
       fst snd negb
       StateMachine.state StateMachine.data StateMachine.error_
       StateMachine.history StateMachine.listeners] in *.

Ltac step :=
  first
    [ step_transition;
      [ simp_world; try discriminate
      | simp_world; try discriminate;
        match goal with w : World t |- _ => open_world w end; simp_world ]
    | match goal with
      | |- context [match ?x with _ => _ end] =>
          lazymatch x with
          | context [Controller.transition] => fail
          | context [match _ with _ => _ end] => fail
          | _ => destruct x eqn:?
          end
      end; simp_world ].

Ltac open_mutate :=
  unfold mutate, applyOptimistic, executeMutation, rollback, handleInvalidation,
    emit, await, call_opt, lift;
  unfold try_finally, try_catch, mbind, M_bind, bind, modify, gets,
    mret, M_ret, ret, throw;
  cbn [this setThis options].


(** A [mutate] on a mutation that is pending rejects with the
    invalid-transition error loading -> loading and changes nothing:
    [onMutate] and [optimistic] do not run and no request is made. *)
Theorem mutate_rejects_while_pending (network : Network) (variables : value) (w : World t) :
  isPending (this w) = true ->
  mutate network variables w
  = (Throw (StateMachine.InvalidTransition StateMachine.loading StateMachine.loading),
     w).
Proof.
  intros Hl. apply bool_decide_eq_true in Hl. unfold StateMachine.getState in Hl.
  open_mutate.
  step_transition.
  - now rewrite Hl.
  - rewrite Hl in Hv. discriminate.
Qed.





End MutationMore.

(** ** The theorems on the controllers at concrete inputs *)

Section ControllerWitnesses.
Import Types Controller.

Lemma fetch_rejects_while_loading_witness :
  let api := Kernel.mk (mkClientConfig (Some "https://api.com") None) None [] in
  let w := mkWorld 0 api (@QueryInstance.new codeUnitCollation "/test" noOptions) [] in
  let busy := (QueryInstance.transition StateMachine.loading VUndefined None w).2 in
  let answered :=
    mkNetwork 20 (Return (mkResponse true 200 "OK" (Return (VStr "value")))) in
  QueryInstance.fetch answered busy
  = (Throw (StateMachine.InvalidTransition StateMachine.loading StateMachine.loading),
     setThis (QueryInstance.setAbortController true) busy).
Proof.
  cbv zeta. apply fetch_rejects_while_loading; [vm_compute; discriminate|reflexivity].
Defined.



Lemma cache_hit_skips_network_witness :
  let c := CacheManager.set 0 "/test|" (VStr "cached") noOptions CacheManager.new in
  let api := Kernel.withCache (mkClientConfig (Some "https://api.com") None) c in
  let w := mkWorld 10 api (@QueryInstance.new codeUnitCollation "/test" noOptions) [] in
  let answered :=
    mkNetwork 20 (Return (mkResponse true 200 "OK" (Return (VStr "value")))) in
  let refused := mkNetwork 20 (Throw (Error_ "Network error")) in
  QueryInstance.fetch answered w = QueryInstance.fetch refused w /\
  clock (QueryInstance.fetch answered w).2 = 10 /\
  (QueryInstance.fetch answered w).1 = Return (VStr "cached").
Proof.
  cbv zeta.
  destruct (cache_hit_skips_network
              (mkNetwork 20 (Return (mkResponse true 200 "OK" (Return (VStr "value")))))
              (mkNetwork 20 (Throw (Error_ "Network error")))
              (mkWorld 10
                 (Kernel.withCache (mkClientConfig (Some "https://api.com") None)
                    (CacheManager.set 0 "/test|" (VStr "cached") noOptions
                       CacheManager.new))
                 (@QueryInstance.new codeUnitCollation "/test" noOptions) [])
              (CacheManager.set 0 "/test|" (VStr "cached") noOptions CacheManager.new))
    as (Hsame & Hclock & _);
    [vm_compute; discriminate | reflexivity | vm_compute; discriminate |].
  split; [exact Hsame|]. split; [exact Hclock|]. reflexivity.
Defined.


Lemma mutate_rejects_while_pending_witness :
  let api := Kernel.withCache (mkClientConfig (Some "https://api.com") None)
               CacheManager.new in
  let options :=
    MutationInstance.mkMutationOptions None None
      (Some (MutationInstance.optimisticSet "/users/1" (VStr "new")))
      None None None None None in
  let w := mkWorld 0 api (MutationInstance.new "/users/1" options) [] in
  let busy := (MutationInstance.transition StateMachine.loading VUndefined None w).2 in
  let answered :=
    mkNetwork 20 (Return (mkResponse true 200 "OK" (Return (VStr "value")))) in
  MutationInstance.mutate answered VNull busy
  = (Throw (StateMachine.InvalidTransition StateMachine.loading StateMachine.loading),
     busy).
Proof.
  cbv zeta. apply mutate_rejects_while_pending. reflexivity.
Defined.



End ControllerWitnesses.

(** * Properties of the state manager *)

Section StateManagerFacts.
Import StateManager.



(** [setQueryState] for a key that has no machine, with a snapshot whose
    state is not loading, throws the invalid-transition error from idle;
    yet the key is registered afterwards, with a machine that has no
    history, so [getQueryState] still answers undefined. *)
Theorem setQueryState_unknown_key (m : t) (key : string) (now : Z)
    (snapshot : StateMachine.StateSnapshot) :
  queries m !! key = None ->
  StateMachine.snap_state snapshot <> StateMachine.loading ->
  let m' := (setQueryState now key snapshot m).2 in
  (setQueryState now key snapshot m).1
  = Throw (StateMachine.InvalidTransition StateMachine.idle
             (StateMachine.snap_state snapshot)) /\
  queries m' !! key = Some StateMachine.new /\
  getQueryState key m' = None /\
  mutations m' = mutations m.
Proof.
  intros Hnone Hs. cbv zeta. unfold setQueryState, StateMachine.transition.
  rewrite Hnone. cbn [default StateMachine.new StateMachine.state].
  replace (StateMachine.isValidTransition StateMachine.idle
             (StateMachine.snap_state snapshot)) with false
    by (destruct (StateMachine.snap_state snapshot); done).
  cbn [negb fst snd queries mutations]. split; [reflexivity|].
  unfold getQueryState. cbn [queries]. rewrite lookup_insert_eq. done.
Qed.
End StateManagerFacts.


Lemma setQueryState_unknown_key_witness :
  let snapshot :=
    StateMachine.mkSnapshot StateMachine.success (VStr "value") None 5 in
  let m' := (StateManager.setQueryState 7 "/test|" snapshot StateManager.new).2 in
  (StateManager.setQueryState 7 "/test|" snapshot StateManager.new).1
  = Throw (StateMachine.InvalidTransition StateMachine.idle StateMachine.success) /\
  StateManager.queries m' !! "/test|" = Some StateMachine.new /\
  StateManager.getQueryState "/test|" m' = None /\
  StateManager.mutations m' = ∅.
Proof.
  cbv zeta.
  apply (setQueryState_unknown_key StateManager.new "/test|" 7
           (StateMachine.mkSnapshot StateMachine.success (VStr "value") None 5));
    [reflexivity | discriminate].
Defined.

Section InvalidateList.
Import Types JsString UrlParser.

Lemma countChar_join_free (c : ascii) (sep : string) (ps : list string) :
  countChar c sep = 0%nat ->
  Forall (fun p => countChar c p = 0%nat) ps ->
  countChar c (join sep ps) = 0%nat.
Proof.
  intros Hsep. induction 1 as [|p ps Hp _ IH]; [reflexivity|].
  destruct ps as [|q ps]; [exact Hp|].
  rewrite join_cons_cons, !countChar_app, Hp, Hsep, IH. reflexivity.
Qed.

(** X30. The keys under which queries cache their results always contain
    the separator [|]. So [invalidate] with a list of patterns none of
    which contains [|] deletes no entry that a query has cached. *)
Theorem invalidate_list_spares_query_keys `{Collation} (patterns : list string)
    (urlTemplate : string) (options : QueryOptions) (c : CacheManager.t) :
  Forall (fun p => countChar "|" p = 0%nat) patterns ->
  let key := QueryInstance.buildKey urlTemplate options in
  CacheManager.cache (CacheManager.invalidate patterns c) !! key
  = CacheManager.cache c !! key /\
  forall now,
    CacheManager.get now key (CacheManager.invalidate patterns c)
    = CacheManager.get now key c.
Proof.
  intros Hfree key.
  assert (Hne : join ":" patterns <> key).
  { intros Heq. apply (f_equal (countChar "|")) in Heq.
    rewrite (countChar_join_free "|"%char ":" patterns eq_refl Hfree) in Heq.
    subst key. unfold QueryInstance.buildKey, generateCacheKey in Heq.
    rewrite !countChar_app in Heq. cbn in Heq. lia. }
  assert (Hl : CacheManager.cache (CacheManager.invalidate patterns c) !! key
               = CacheManager.cache c !! key).
  { unfold CacheManager.invalidate. cbn [CacheManager.cache].
    now apply lookup_delete_ne. }
  split; [exact Hl|]. intros now. unfold CacheManager.get. now rewrite Hl.
Qed.
End InvalidateList.

Lemma invalidate_list_spares_query_keys_witness :
  let c := CacheManager.set 0 "/users|" (VStr "by query") Types.noOptions CacheManager.new in
  let key := @QueryInstance.buildKey codeUnitCollation "/users" Types.noOptions in
  CacheManager.cache (CacheManager.invalidate ["users"] c) !! key
  = CacheManager.cache c !! key /\
  forall now,
    CacheManager.get now key (CacheManager.invalidate ["users"] c)
    = CacheManager.get now key c.
Proof.
  cbv zeta.
  apply (@invalidate_list_spares_query_keys codeUnitCollation ["users"] "/users"
           Types.noOptions).
  repeat constructor.
Defined.
